(** * ACT (Aerospike Certification Tool) 3.1: the workload driver of act.c

    A shallow embedding of act.c: device geometry discovery, the direct-I/O
    engine with its descriptor pool, the transaction request generator, the
    read workers, the large-block loops and the shutdown protocol.

    Conventions.
    - C unsigned integers are [Z] values; every operation that can wrap in C
      is written with [u32] or [u64] around it.
    - An integer division or remainder by zero is undefined behaviour in C;
      it is the [Trap] outcome here.
    - Results of system calls, of the clock and of rand() are inputs of the
      functions that make the call.
    - The process-wide globals, the queues, the histograms and the sequence
      of system calls issued so far make up the [world]. *)

From Stdlib Require Import ZArith List Bool Lia Znumtheory.
From Stdlib Require String Ascii.
Import ListNotations.
Local Open Scope Z_scope.

(** ** Machine integers *)

Definition u32 (x : Z) : Z := x mod 2 ^ 32.
Definition u64 (x : Z) : Z := x mod 2 ^ 64.

Definition is_u32 (x : Z) : Prop := 0 <= x < 2 ^ 32.
Definition is_u64 (x : Z) : Prop := 0 <= x < 2 ^ 64.

(** ** Outcomes: a value, or undefined behaviour reached *)

Inductive outcome (A : Type) : Type :=
| Ret (a : A)
| Trap.
Arguments Ret {A} a.
Arguments Trap {A}.

Definition bind {A B : Type} (m : outcome A) (k : A -> outcome B) : outcome B :=
  match m with
  | Ret a => k a
  | Trap => Trap
  end.

Notation "x <- m ;; k" := (bind m (fun x => k))
  (at level 61, m at next level, right associativity).

(** C's [/] and [%] on unsigned operands. *)
Definition udiv (a b : Z) : outcome Z := if b =? 0 then Trap else Ret (a / b).
Definition umod (a b : Z) : outcome Z := if b =? 0 then Trap else Ret (a mod b).

(** ** Constants of act.c *)

Definition LO_IO_MIN_SIZE : Z := 512.
Definition HI_IO_MIN_SIZE : Z := 4096.
Definition MAX_READ_REQS_QUEUED : Z := 100000.
Definition MAX_SLEEP_LAG_USEC : Z := 1000000 * 10.
Definition STAGGER : Z := 1000.
Definition RW_STAGGER : Z := 1000 / 2.

(** The value of [(uint64_t)-1], which read_from_device and write_to_device
    return on failure and their callers compare the stop time with. *)
Definition IO_FAILED : Z := u64 (-1).

(** ** Configuration *)

(** Modelled from the spec: configuration.h, which declares the type of
    [g_cfg], is not among the sources. The fields are those act.c reads,
    typed as the configuration table gives them (unsigned 32-bit).
    [max_reqs_queued] is the item max-reqs-queued of the configuration file;
    no function of act.c reads it. *)
Record act_cfg : Type := {
  num_devices : Z;
  num_queues : Z;
  threads_per_queue : Z;
  read_reqs_per_sec : Z;
  write_reqs_per_sec : Z;
  record_bytes : Z;
  large_block_ops_bytes : Z;
  max_reqs_queued : Z
}.

Definition wf_cfg (c : act_cfg) : Prop :=
  is_u32 (num_devices c) /\ is_u32 (num_queues c) /\
  is_u32 (threads_per_queue c) /\ is_u32 (read_reqs_per_sec c) /\
  is_u32 (write_reqs_per_sec c) /\ is_u32 (record_bytes c) /\
  is_u32 (large_block_ops_bytes c) /\ is_u32 (max_reqs_queued c).

(** ** Devices and read requests *)

(** The value fields of [struct _device]. The descriptor queue and the
    histogram the struct points to are shared mutable objects: they live in
    the [world], under the device's index [n]. *)
Record device : Type := {
  n : Z;
  num_large_blocks : Z;
  num_read_offsets : Z;
  min_op_bytes : Z;
  read_bytes : Z
}.

Definition set_num_large_blocks (d : device) (v : Z) : device :=
  {| n := n d; num_large_blocks := v; num_read_offsets := num_read_offsets d;
     min_op_bytes := min_op_bytes d; read_bytes := read_bytes d |}.
Definition set_min_op_bytes (d : device) (v : Z) : device :=
  {| n := n d; num_large_blocks := num_large_blocks d;
     num_read_offsets := num_read_offsets d;
     min_op_bytes := v; read_bytes := read_bytes d |}.
Definition set_num_read_offsets (d : device) (v : Z) : device :=
  {| n := n d; num_large_blocks := num_large_blocks d; num_read_offsets := v;
     min_op_bytes := min_op_bytes d; read_bytes := read_bytes d |}.
Definition set_read_bytes (d : device) (v : Z) : device :=
  {| n := n d; num_large_blocks := num_large_blocks d;
     num_read_offsets := num_read_offsets d;
     min_op_bytes := min_op_bytes d; read_bytes := v |}.

(** [struct _readreq]; devices do not change after setup, so the pointer
    [p_device] is the device record itself. *)
Record readreq : Type := {
  p_device : device;
  offset : Z;
  size : Z;
  start_time : Z
}.

(** ** The world *)

Inductive message : Type :=
| ErrOpenDevice
| ErrSeek
| ErrMinSizeValloc
| ErrReadAllSizes
| InfoGeometry (device_bytes blocks min_op_blocks min_op read : Z)
| ErrSeekRead
| ErrSeekWrite
| ErrTooManyReadReqs
| ErrCantKeepUp
| ErrLargeBlockReadValloc
| ErrLargeBlockWriteValloc
| ErrLargeBlockReadsLag
| ErrLargeBlockWritesLag.

(** The calls that leave the process, in the order they are made. *)
Inductive event : Type :=
| EvOpen (dev ret : Z)
| EvSeek (fd off : Z)
| EvRead (fd buf len : Z)
| EvWrite (fd buf len : Z)
| EvClose (fd : Z)
| EvRandFill (buf len : Z)
| EvPrint (m : message).

Inductive hist_id : Type :=
| LargeBlockReads
| LargeBlockWrites
| RawReads
| Reads
| DeviceRawReads (dev : Z).

Definition hist_id_eqb (a b : hist_id) : bool :=
  match a, b with
  | LargeBlockReads, LargeBlockReads => true
  | LargeBlockWrites, LargeBlockWrites => true
  | RawReads, RawReads => true
  | Reads, Reads => true
  | DeviceRawReads x, DeviceRawReads y => x =? y
  | _, _ => false
  end.

(** Modelled from the spec: queue.h, atomic.h and histogram.h are not among
    the sources. A queue is a FIFO list (push at the tail, pop at the head),
    the atomic counter is an unsigned 32-bit integer whose increment returns
    the new value, and a histogram is the list of the data points inserted,
    the latest first. *)
Record world : Type := {
  g_running : bool;
  g_read_reqs_queued : Z;
  fd_queue : Z -> list Z;
  req_queue : Z -> list readreq;
  histogram : hist_id -> list Z;
  trace : list event
}.

Definition set_running (w : world) (b : bool) : world :=
  {| g_running := b; g_read_reqs_queued := g_read_reqs_queued w;
     fd_queue := fd_queue w; req_queue := req_queue w;
     histogram := histogram w; trace := trace w |}.
Definition set_read_reqs_queued (w : world) (v : Z) : world :=
  {| g_running := g_running w; g_read_reqs_queued := v;
     fd_queue := fd_queue w; req_queue := req_queue w;
     histogram := histogram w; trace := trace w |}.
Definition set_fd_queue (w : world) (dev : Z) (q : list Z) : world :=
  {| g_running := g_running w; g_read_reqs_queued := g_read_reqs_queued w;
     fd_queue := fun i => if i =? dev then q else fd_queue w i;
     req_queue := req_queue w;
     histogram := histogram w; trace := trace w |}.
Definition set_req_queue (w : world) (qi : Z) (q : list readreq) : world :=
  {| g_running := g_running w; g_read_reqs_queued := g_read_reqs_queued w;
     fd_queue := fd_queue w;
     req_queue := fun i => if i =? qi then q else req_queue w i;
     histogram := histogram w; trace := trace w |}.
Definition emit (w : world) (e : event) : world :=
  {| g_running := g_running w; g_read_reqs_queued := g_read_reqs_queued w;
     fd_queue := fd_queue w; req_queue := req_queue w;
     histogram := histogram w; trace := trace w ++ [e] |}.

Definition histogram_insert_data_point (w : world) (h : hist_id) (v : Z) : world :=
  {| g_running := g_running w; g_read_reqs_queued := g_read_reqs_queued w;
     fd_queue := fd_queue w; req_queue := req_queue w;
     histogram := fun i => if hist_id_eqb i h then v :: histogram w i
                           else histogram w i;
     trace := trace w |}.

Definition cf_atomic32_incr (w : world) : world * Z :=
  let v := u32 (g_read_reqs_queued w + 1) in (set_read_reqs_queued w v, v).
Definition cf_atomic32_decr (w : world) : world :=
  set_read_reqs_queued w (u32 (g_read_reqs_queued w - 1)).

Definition cf_queue_push_req (w : world) (qi : Z) (r : readreq) : world :=
  set_req_queue w qi (req_queue w qi ++ [r]).

(** ** Descriptor pool *)

(** fd_get: pop a pooled descriptor, or open the device. [open_ret] is what
    open() returns if it is called: a new descriptor, or -1. *)
Definition fd_get (w : world) (d : device) (open_ret : Z) : world * Z :=
  match fd_queue w (n d) with
  | fd :: rest => (set_fd_queue w (n d) rest, fd)
  | [] =>
      let w1 := emit w (EvOpen (n d) open_ret) in
      if open_ret =? -1 then (emit w1 (EvPrint ErrOpenDevice), open_ret)
      else (w1, open_ret)
  end.

(** fd_put *)
Definition fd_put (w : world) (d : device) (fd : Z) : world :=
  set_fd_queue w (n d) (fd_queue w (n d) ++ [fd]).

(** ** Geometry probe *)

(** What the operating system answers while one device is being set up. *)
Record dev_env : Type := {
  open_ret : Z;            (* open(): a descriptor, or -1 *)
  device_bytes : Z;        (* device_bytes after ioctl(BLKGETSIZE64); 0 if it failed *)
  seek0_ret : Z;           (* lseek(fd, 0, SEEK_SET) *)
  memalign_status : Z;     (* posix_memalign() for the probe buffer: 0 if it succeeded *)
  memalign_pv : Z;         (* the address it stored *)
  probe_read_ret : Z -> Z  (* read(fd, buf, read_sz), by read_sz *)
}.

Definition wf_env (e : dev_env) : Prop := is_u64 (device_bytes e).

(** cf_valloc: posix_memalign's status and the address it stored. *)
Definition cf_valloc (status pv : Z) : Z := if status =? 0 then pv else 0.

(** The while loop of discover_min_op_bytes. It doubles [read_sz] from 512
    until it exceeds 4096, so four rounds are the most it can make; [None]
    is for a round count that was too small. *)
Fixpoint probe_loop (rounds : nat) (e : dev_env) (w : world) (fd buf read_sz : Z)
  : option (world * Z) :=
  if read_sz <=? HI_IO_MIN_SIZE then
    match rounds with
    | O => None
    | S k =>
        let w1 := emit w (EvRead fd buf read_sz) in
        if probe_read_ret e read_sz =? read_sz then Some (w1, read_sz)
        else probe_loop k e w1 fd buf (u64 (Z.shiftl read_sz 1))
    end
  else Some (emit w (EvPrint ErrReadAllSizes), 0).

Definition discover_min_op_bytes (e : dev_env) (w : world) (fd : Z) : world * Z :=
  let w1 := emit w (EvSeek fd 0) in
  if negb (seek0_ret e =? 0) then (emit w1 (EvPrint ErrSeek), 0)
  else
    let buf := cf_valloc (memalign_status e) (memalign_pv e) in
    if buf =? 0 then (emit w1 (EvPrint ErrMinSizeValloc), 0)
    else
      match probe_loop 4 e w1 fd buf LO_IO_MIN_SIZE with
      | Some r => r
      | None => (w1, 0)
      end.

(** discover_num_blocks: fills in the device and answers whether it can be
    used. The two locals num_min_op_blocks and read_req_min_op_blocks are
    functions of the configuration and the device of their own, since the
    properties below speak of them. *)
Definition num_min_op_blocks (c : act_cfg) (d : device) : outcome Z :=
  udiv (u64 (num_large_blocks d * large_block_ops_bytes c)) (min_op_bytes d).

Definition read_req_min_op_blocks (c : act_cfg) (d : device) : outcome Z :=
  udiv (u32 (record_bytes c + min_op_bytes d - 1)) (min_op_bytes d).

Definition discover_num_blocks (c : act_cfg) (e : dev_env) (w : world) (d : device)
  : outcome (world * device * bool) :=
  let '(w1, fd) := fd_get w d (open_ret e) in
  if fd =? -1 then Ret (w1, d, false)
  else
    blocks <- udiv (device_bytes e) (large_block_ops_bytes c) ;;
    let d1 := set_num_large_blocks d blocks in
    let '(w2, min_op) := discover_min_op_bytes e w1 fd in
    let d2 := set_min_op_bytes d1 (u32 min_op) in
    let w3 := fd_put w2 d2 fd in
    if (num_large_blocks d2 =? 0) || (min_op_bytes d2 =? 0) then Ret (w3, d2, false)
    else
      nmob <- num_min_op_blocks c d2 ;;
      rrmob <- read_req_min_op_blocks c d2 ;;
      let d3 := set_num_read_offsets d2 (u64 (nmob - rrmob + 1)) in
      let d4 := set_read_bytes d3 (u32 (rrmob * min_op_bytes d3)) in
      let w4 := emit w3 (EvPrint (InfoGeometry (device_bytes e)
                   (num_large_blocks d4) nmob (min_op_bytes d4) (read_bytes d4))) in
      Ret (w4, d4, true).

(** The device loop of main: [None] is exit(-1). [queue_ok] and [hist_ok]
    say whether cf_queue_create and histogram_create succeeded for the
    device. *)
Record setup_env : Type := {
  queue_ok : bool;
  hist_ok : bool;
  dev : dev_env
}.

Definition blank_device (i : Z) : device :=
  {| n := i; num_large_blocks := 0; num_read_offsets := 0;
     min_op_bytes := 0; read_bytes := 0 |}.

Fixpoint setup_devices (c : act_cfg) (es : list setup_env) (i : Z) (w : world)
  : outcome (option (world * list device)) :=
  match es with
  | [] => Ret (Some (w, []))
  | e :: es' =>
      if negb (queue_ok e) then Ret None
      else
        let w0 := set_fd_queue w i [] in
        r <- discover_num_blocks c (dev e) w0 (blank_device i) ;;
        let '(w1, d, ok) := r in
        if negb ok then Ret None
        else if negb (hist_ok e) then Ret None
        else
          rest <- setup_devices c es' (i + 1) w1 ;;
          match rest with
          | None => Ret None
          | Some (w2, ds) => Ret (Some (w2, d :: ds))
          end
  end.

(** ** Random numbers and offsets *)

(** rand_31 and rand_48, from the values rand() returned. *)
Definition rand_31 (r : Z) : Z := u32 r.

Definition rand_48 (r1 r2 : Z) : Z :=
  Z.lor (u64 (Z.shiftl (u64 r1) 16)) (Z.land (u64 r2) 65535).

Definition random_read_offset (d : device) (r1 r2 : Z) : outcome Z :=
  k <- umod (rand_48 r1 r2) (num_read_offsets d) ;;
  Ret (u64 (k * min_op_bytes d)).

Definition random_large_block_offset (c : act_cfg) (d : device) (r1 r2 : Z)
  : outcome Z :=
  k <- umod (rand_48 r1 r2) (num_large_blocks d) ;;
  Ret (u64 (k * large_block_ops_bytes c)).

(** ** Direct-I/O engine *)

(** What the operating system answers during one device operation.
    lseek() returns the resulting offset, or -1; read() and write() return
    the number of bytes transferred, or -1. *)
Record io_env : Type := {
  io_open_ret : Z;   (* open(), if the pool is empty *)
  io_seek_ok : bool; (* whether lseek() succeeds *)
  io_xfer_ret : Z;   (* read() or write() *)
  io_stop_ns : Z     (* cf_getns() after the transfer *)
}.

(** A uint64_t seen as the signed off_t, and what lseek(fd, off, SEEK_SET)
    returns. *)
Definition to_i64 (x : Z) : Z := if x <? 2 ^ 63 then x else x - 2 ^ 64.
Definition lseek_ret (ok : bool) (off : Z) : Z := if ok then to_i64 off else -1.

(** read_from_device *)
Definition read_from_device (w : world) (d : device) (off len buf : Z) (io : io_env)
  : world * Z :=
  let '(w1, fd) := fd_get w d (io_open_ret io) in
  if fd =? -1 then (w1, IO_FAILED)
  else
    let w2 := emit w1 (EvSeek fd off) in
    if negb (u64 (lseek_ret (io_seek_ok io) off) =? off) then
      (emit (emit w2 (EvClose fd)) (EvPrint ErrSeekRead), IO_FAILED)
    else
      let w3 := emit w2 (EvRead fd buf len) in
      if negb (io_xfer_ret io =? len) then
        (emit (emit w3 (EvClose fd)) (EvPrint ErrSeekRead), IO_FAILED)
      else (fd_put w3 d fd, io_stop_ns io).

(** write_to_device *)
Definition write_to_device (w : world) (d : device) (off len buf : Z) (io : io_env)
  : world * Z :=
  let '(w1, fd) := fd_get w d (io_open_ret io) in
  if fd =? -1 then (w1, IO_FAILED)
  else
    let w2 := emit w1 (EvSeek fd off) in
    if negb (u64 (lseek_ret (io_seek_ok io) off) =? off) then
      (emit (emit w2 (EvClose fd)) (EvPrint ErrSeekWrite), IO_FAILED)
    else
      let w3 := emit w2 (EvWrite fd buf len) in
      if negb (io_xfer_ret io =? len) then
        (emit (emit w3 (EvClose fd)) (EvPrint ErrSeekWrite), IO_FAILED)
      else (fd_put w3 d fd, io_stop_ns io).

(** safe_delta_ns *)
Definition safe_delta_ns (start_ns stop_ns : Z) : Z :=
  if start_ns >? stop_ns then 0 else u64 (stop_ns - start_ns).

(** read_and_report; [raw_start_time] is the cf_getns() it starts with. *)
Definition read_and_report (w : world) (r : readreq) (p_buffer raw_start_time : Z)
    (io : io_env) : world :=
  let '(w1, stop_time) :=
    read_from_device w (p_device r) (offset r) (size r) p_buffer io in
  if negb (stop_time =? IO_FAILED) then
    let w2 := histogram_insert_data_point w1 RawReads
                (safe_delta_ns raw_start_time stop_time) in
    let w3 := histogram_insert_data_point w2 Reads
                (safe_delta_ns (start_time r) stop_time) in
    histogram_insert_data_point w3 (DeviceRawReads (n (p_device r)))
      (safe_delta_ns raw_start_time stop_time)
  else w1.

(** read_and_report_large_block; [r1], [r2] are the two rand() values of
    rand_48 and [start] the cf_getns() before the read. *)
Definition read_and_report_large_block (c : act_cfg) (w : world) (d : device)
    (p_buffer r1 r2 start : Z) (io : io_env) : outcome world :=
  off <- random_large_block_offset c d r1 r2 ;;
  let '(w1, stop_time) :=
    read_from_device w d off (large_block_ops_bytes c) p_buffer io in
  if negb (stop_time =? IO_FAILED) then
    Ret (histogram_insert_data_point w1 LargeBlockReads (safe_delta_ns start stop_time))
  else Ret w1.

(** write_and_report_large_block *)
Definition write_and_report_large_block (c : act_cfg) (w : world) (d : device)
    (p_buffer r1 r2 start : Z) (io : io_env) : outcome world :=
  let w0 := emit w (EvRandFill p_buffer (large_block_ops_bytes c)) in
  off <- random_large_block_offset c d r1 r2 ;;
  let '(w1, stop_time) :=
    write_to_device w0 d off (large_block_ops_bytes c) p_buffer io in
  if negb (stop_time =? IO_FAILED) then
    Ret (histogram_insert_data_point w1 LargeBlockWrites (safe_delta_ns start stop_time))
  else Ret w1.

(** ** Large-block loops *)

(** One round of the loop of run_large_block_reads and of
    run_large_block_writes. The pacing target is computed in floating point
    from the clock; [lb_sleep_us] is the resulting sleep_us. *)
Record lb_input : Type := {
  lb_r1 : Z;
  lb_r2 : Z;
  lb_start : Z;
  lb_io : io_env;
  lb_sleep_us : Z
}.

Definition large_block_lag (w : world) (m : message) (sleep_us : Z) : world :=
  if sleep_us >? 0 then w
  else if sleep_us <? - MAX_SLEEP_LAG_USEC then
    set_running (emit (emit w (EvPrint m)) (EvPrint ErrCantKeepUp)) false
  else w.

Definition large_block_read_round (c : act_cfg) (w : world) (d : device)
    (p_buffer : Z) (i : lb_input) : outcome world :=
  w1 <- read_and_report_large_block c w d p_buffer (lb_r1 i) (lb_r2 i)
          (lb_start i) (lb_io i) ;;
  Ret (large_block_lag w1 ErrLargeBlockReadsLag (lb_sleep_us i)).

Definition large_block_write_round (c : act_cfg) (w : world) (d : device)
    (p_buffer : Z) (i : lb_input) : outcome world :=
  w1 <- write_and_report_large_block c w d p_buffer (lb_r1 i) (lb_r2 i)
          (lb_start i) (lb_io i) ;;
  Ret (large_block_lag w1 ErrLargeBlockWritesLag (lb_sleep_us i)).

(** run_large_block_reads: the buffer is cf_valloc(large_block_ops_bytes);
    the rounds go on while g_running is seen set. [before] is what other
    threads did to the world since the previous round. *)
Fixpoint large_block_reads_loop (c : act_cfg) (d : device) (p_buffer : Z)
    (ins : list ((world -> world) * lb_input)) (w : world) : outcome world :=
  match ins with
  | [] => Ret w
  | (before, i) :: ins' =>
      let w0 := before w in
      if g_running w0 then
        w1 <- large_block_read_round c w0 d p_buffer i ;;
        large_block_reads_loop c d p_buffer ins' w1
      else Ret w0
  end.

Definition run_large_block_reads (c : act_cfg) (d : device) (status pv : Z)
    (ins : list ((world -> world) * lb_input)) (w : world) : outcome world :=
  let p_buffer := cf_valloc status pv in
  if p_buffer =? 0 then Ret (emit w (EvPrint ErrLargeBlockReadValloc))
  else large_block_reads_loop c d p_buffer ins w.

Fixpoint large_block_writes_loop (c : act_cfg) (d : device) (p_buffer : Z)
    (ins : list ((world -> world) * lb_input)) (w : world) : outcome world :=
  match ins with
  | [] => Ret w
  | (before, i) :: ins' =>
      let w0 := before w in
      if g_running w0 then
        w1 <- large_block_write_round c w0 d p_buffer i ;;
        large_block_writes_loop c d p_buffer ins' w1
      else Ret w0
  end.

Definition run_large_block_writes (c : act_cfg) (d : device) (status pv : Z)
    (ins : list ((world -> world) * lb_input)) (w : world) : outcome world :=
  let p_buffer := cf_valloc status pv in
  if p_buffer =? 0 then Ret (emit w (EvPrint ErrLargeBlockWriteValloc))
  else large_block_writes_loop c d p_buffer ins w.

(** ** Transaction request generator *)

(** What one round of the loop of run_add_readreqs takes from outside:
    [g_before] is what other threads did to the world since the previous
    round; [g_rand] is the rand() of rand_31, [g_r1] and [g_r2] those of
    rand_48; [g_elapsed_us] is cf_getus() - g_run_start_us. *)
Record gen_input : Type := {
  g_before : world -> world;
  g_rand : Z;
  g_r1 : Z;
  g_r2 : Z;
  g_now_ns : Z;
  g_elapsed_us : Z
}.

(** The overload test that opens the loop body. *)
Definition too_many_queued (w : world) : world * bool :=
  let '(w1, v) := cf_atomic32_incr w in
  if v >? MAX_READ_REQS_QUEUED then
    (set_running (emit (emit w1 (EvPrint ErrTooManyReadReqs))
                    (EvPrint ErrCantKeepUp)) false, true)
  else (w1, false).

(** From the choice of the queue to cf_queue_push. An index outside
    g_devices is undefined behaviour. *)
Definition enqueue_readreq (c : act_cfg) (devs : list device) (w : world)
    (count : Z) (i : gen_input) : outcome (world * Z * readreq) :=
  qi <- umod count (num_queues c) ;;
  let queue_index := u32 qi in
  random_device_index <- umod (rand_31 (g_rand i)) (num_devices c) ;;
  match nth_error devs (Z.to_nat random_device_index) with
  | None => Trap
  | Some p_random_device =>
      off <- random_read_offset p_random_device (g_r1 i) (g_r2 i) ;;
      let p_readreq :=
        {| p_device := p_random_device; offset := off;
           size := read_bytes p_random_device; start_time := g_now_ns i |} in
      Ret (cf_queue_push_req w queue_index p_readreq, queue_index, p_readreq)
  end.

(** The sleep_us that closes the loop body; [count] is already incremented. *)
Definition pace (c : act_cfg) (count : Z) (i : gen_input) : outcome Z :=
  due <- udiv (u64 (count * 1000000)) (read_reqs_per_sec c) ;;
  Ret (to_i64 (u64 (due - g_elapsed_us i))).

Inductive gen_exit : Type :=
| GenStopped     (* g_running was seen cleared *)
| GenOverload    (* left through the overload test *)
| GenTrapped     (* undefined behaviour *)
| GenUnfinished. (* the inputs given ran out; the loop would go on *)

Record gen_result : Type := {
  pushed : list (Z * readreq); (* queue index and request of every push, in order *)
  final : world;
  final_count : Z;
  how : gen_exit
}.

Definition gen_stop (w : world) (count : Z) (h : gen_exit) : gen_result :=
  {| pushed := []; final := w; final_count := count; how := h |}.

Definition gen_cons (p : Z * readreq) (r : gen_result) : gen_result :=
  {| pushed := p :: pushed r; final := final r;
     final_count := final_count r; how := how r |}.

Fixpoint add_readreqs_loop (c : act_cfg) (devs : list device)
    (ins : list gen_input) (w : world) (count : Z) : gen_result :=
  match ins with
  | [] => gen_stop w count GenUnfinished
  | i :: ins' =>
      let w0 := g_before i w in
      if negb (g_running w0) then gen_stop w0 count GenStopped
      else
        let '(w1, over) := too_many_queued w0 in
        if over then gen_stop w1 count GenOverload
        else
          match enqueue_readreq c devs w1 count i with
          | Trap => gen_stop w1 count GenTrapped
          | Ret (w2, qi, r) =>
              let count' := u64 (count + 1) in
              match pace c count' i with
              | Trap => gen_cons (qi, r) (gen_stop w2 count' GenTrapped)
              | Ret _ => gen_cons (qi, r) (add_readreqs_loop c devs ins' w2 count')
              end
          end
  end.

(** run_add_readreqs *)
Definition run_add_readreqs (c : act_cfg) (devs : list device)
    (ins : list gen_input) (w : world) : gen_result :=
  add_readreqs_loop c devs ins w 0.

(** ** Read workers *)

(** align_4096 *)
Definition align_4096 (stack_buffer : Z) : Z :=
  Z.land (u64 (stack_buffer + 4095)) (u64 (Z.lnot 4095)).


Record worker_input : Type := {
  wk_before : world -> world;
  wk_stack_buffer : Z; (* where the array was placed *)
  wk_raw_start : Z;    (* the cf_getns() of read_and_report *)
  wk_io : io_env
}.

(** cf_queue_pop with the 100 ms wait: [None] is the timeout. *)
Definition cf_queue_pop_req (w : world) (qi : Z) : option (world * readreq) :=
  match req_queue w qi with
  | [] => None
  | r :: rest => Some (set_req_queue w qi rest, r)
  end.

(** The loop body of run_reads once a request was popped. *)
Definition serve_readreq (w : world) (r : readreq) (i : worker_input) : world :=
  let p_buffer := align_4096 (wk_stack_buffer i) in
  let w1 := read_and_report w r p_buffer (wk_raw_start i) (wk_io i) in
  cf_atomic32_decr w1.

(** run_reads on the queue of index [qi] *)
Fixpoint run_reads (qi : Z) (ins : list worker_input) (w : world) : world :=
  match ins with
  | [] => w
  | i :: ins' =>
      let w0 := wk_before i w in
      if g_running w0 then
        match cf_queue_pop_req w0 qi with
        | None => run_reads qi ins' w0
        | Some (w1, r) => run_reads qi ins' (serve_readreq w1 r i)
        end
      else w0
  end.

(** ** The threads of one run *)

(** Where each thread stands between two accesses to shared state. *)
Inductive gen_pc : Type :=
| GenTop                           (* about to test g_running *)
| GenBody                          (* about to increment g_read_reqs_queued *)
| GenPush                          (* about to build and push a request *)
| GenReturned (overloaded : bool).

Inductive worker_pc : Type :=
| WkTop                 (* about to test g_running *)
| WkPop                 (* about to pop *)
| WkServe (r : readreq) (* holds a request *)
| WkReturned.

Inductive main_pc : Type :=
| MainReporting   (* in the reporting loop *)
| MainJoinGen     (* g_running cleared, joining the generator *)
| MainJoinWorkers (* joining the workers *)
| MainDone.

Record sys : Type := {
  shared : world;
  gpc : gen_pc;
  gcount : Z;
  workers : list (Z * worker_pc); (* queue index and position of each worker *)
  mpc : main_pc
}.

Definition returned (p : Z * worker_pc) : Prop := snd p = WkReturned.

Section Threads.

Variable c : act_cfg.
Variable devs : list device.

Inductive step : sys -> sys -> Prop :=
| gen_test_true s :
    gpc s = GenTop -> g_running (shared s) = true ->
    step s {| shared := shared s; gpc := GenBody; gcount := gcount s;
              workers := workers s; mpc := mpc s |}
| gen_test_false s :
    gpc s = GenTop -> g_running (shared s) = false ->
    step s {| shared := shared s; gpc := GenReturned false; gcount := gcount s;
              workers := workers s; mpc := mpc s |}
| gen_incr s w' over :
    gpc s = GenBody -> too_many_queued (shared s) = (w', over) ->
    step s {| shared := w';
              gpc := if over then GenReturned true else GenPush;
              gcount := gcount s; workers := workers s; mpc := mpc s |}
| gen_push s i w' qi r sleep_us :
    gpc s = GenPush ->
    enqueue_readreq c devs (shared s) (gcount s) i = Ret (w', qi, r) ->
    pace c (u64 (gcount s + 1)) i = Ret sleep_us ->
    step s {| shared := w'; gpc := GenTop; gcount := u64 (gcount s + 1);
              workers := workers s; mpc := mpc s |}
| wk_test s l1 qi l2 :
    workers s = l1 ++ (qi, WkTop) :: l2 ->
    step s {| shared := shared s; gpc := gpc s; gcount := gcount s;
              workers := l1 ++ (qi, if g_running (shared s) then WkPop
                                    else WkReturned) :: l2;
              mpc := mpc s |}
| wk_timeout s l1 qi l2 :
    workers s = l1 ++ (qi, WkPop) :: l2 ->
    cf_queue_pop_req (shared s) qi = None ->
    step s {| shared := shared s; gpc := gpc s; gcount := gcount s;
              workers := l1 ++ (qi, WkTop) :: l2; mpc := mpc s |}
| wk_pop s l1 qi l2 w' r :
    workers s = l1 ++ (qi, WkPop) :: l2 ->
    cf_queue_pop_req (shared s) qi = Some (w', r) ->
    step s {| shared := w'; gpc := gpc s; gcount := gcount s;
              workers := l1 ++ (qi, WkServe r) :: l2; mpc := mpc s |}
| wk_serve s l1 qi l2 r i :
    workers s = l1 ++ (qi, WkServe r) :: l2 ->
    step s {| shared := serve_readreq (shared s) r i; gpc := gpc s;
              gcount := gcount s;
              workers := l1 ++ (qi, WkTop) :: l2; mpc := mpc s |}
| lb_read s d p_buffer i w' :
    In d devs ->
    large_block_read_round c (shared s) d p_buffer i = Ret w' ->
    step s {| shared := w'; gpc := gpc s; gcount := gcount s;
              workers := workers s; mpc := mpc s |}
| lb_write s d p_buffer i w' :
    In d devs ->
    large_block_write_round c (shared s) d p_buffer i = Ret w' ->
    step s {| shared := w'; gpc := gpc s; gcount := gcount s;
              workers := workers s; mpc := mpc s |}
| main_stop s :
    mpc s = MainReporting ->
    step s {| shared := set_running (shared s) false; gpc := gpc s;
              gcount := gcount s; workers := workers s; mpc := MainJoinGen |}
| main_join_gen s b :
    mpc s = MainJoinGen -> gpc s = GenReturned b ->
    step s {| shared := shared s; gpc := gpc s; gcount := gcount s;
              workers := workers s; mpc := MainJoinWorkers |}
| main_join_workers s :
    mpc s = MainJoinWorkers -> Forall returned (workers s) ->
    step s {| shared := shared s; gpc := gpc s; gcount := gcount s;
              workers := workers s; mpc := MainDone |}.

Inductive steps : sys -> sys -> Prop :=
| steps_refl s : steps s s
| steps_more s1 s2 s3 : steps s1 s2 -> step s2 s3 -> steps s1 s3.

(** The world main has built when it starts the threads: the flag set,
    the counter at 0, every request queue empty. *)
Definition started (w : world) : world :=
  {| g_running := true; g_read_reqs_queued := 0;
     fd_queue := fd_queue w; req_queue := fun _ => [];
     histogram := histogram w; trace := trace w |}.

(** One worker per queue and thread, as main creates them. *)
Definition queue_workers (qi : Z) : list (Z * worker_pc) :=
  repeat (qi, WkTop) (Z.to_nat (threads_per_queue c)).

Definition all_workers : list (Z * worker_pc) :=
  flat_map (fun k => queue_workers (Z.of_nat k)) (seq 0 (Z.to_nat (num_queues c))).

Definition init (w : world) : sys :=
  {| shared := started w; gpc := GenTop; gcount := 0;
     workers := all_workers; mpc := MainReporting |}.

(** Requests lying in the queues. *)
Definition total_queued (w : world) : Z :=
  fold_right Z.add 0
    (map (fun k => Z.of_nat (length (req_queue w (Z.of_nat k))))
         (seq 0 (Z.to_nat (num_queues c)))).

(** Requests a worker holds. *)
Definition held (p : Z * worker_pc) : Z :=
  match snd p with WkServe _ => 1 | _ => 0 end.

Definition total_held (l : list (Z * worker_pc)) : Z :=
  fold_right Z.add 0 (map held l).

(** Increments of the generator that no push has followed. *)
Definition unpushed (p : gen_pc) : Z :=
  match p with
  | GenPush | GenReturned true => 1
  | _ => 0
  end.

End Threads.

(** ** The formulas of the specification, over the integers *)

Definition ceil_div (a b : Z) : Z := (a + b - 1) / b.

Definition spec_num_min_op_blocks (c : act_cfg) (d : device) : Z :=
  (num_large_blocks d * large_block_ops_bytes c) / min_op_bytes d.
Definition spec_read_req_blocks (c : act_cfg) (d : device) : Z :=
  ceil_div (record_bytes c) (min_op_bytes d).
Definition spec_read_bytes (c : act_cfg) (d : device) : Z :=
  spec_read_req_blocks c d * min_op_bytes d.
Definition spec_num_read_offsets (c : act_cfg) (d : device) : Z :=
  spec_num_min_op_blocks c d - spec_read_req_blocks c d + 1.

(** How many of the pushes [l] went to queue [q]. *)
Definition received (q : Z) (l : list (Z * readreq)) : Z :=
  Z.of_nat (length (filter (fun p => fst p =? q) l)).

(** [len] consecutive pushes, starting with the one of index [from]. *)
Definition window {A : Type} (from len : nat) (l : list A) : list A :=
  firstn len (skipn from l).

(** ** Notions the properties are stated with *)

(** What a device that passed discover_num_blocks looks like. *)
Record probed (c : act_cfg) (e : dev_env) (d : device) : Prop := {
  probed_block_bytes : large_block_ops_bytes c <> 0;
  probed_blocks : num_large_blocks d = device_bytes e / large_block_ops_bytes c;
  probed_some_block : num_large_blocks d <> 0;
  probed_min_op : In (min_op_bytes d) [512; 1024; 2048; 4096];
  probed_offsets :
    num_read_offsets d =
    u64 (u64 (num_large_blocks d * large_block_ops_bytes c) / min_op_bytes d
         - u32 (record_bytes c + min_op_bytes d - 1) / min_op_bytes d + 1);
  probed_read_bytes :
    read_bytes d =
    u32 (u32 (record_bytes c + min_op_bytes d - 1) / min_op_bytes d
         * min_op_bytes d)
}.

(** The events one call adds, all about the arguments it was given. *)
Definition about (off len buf : Z) (e : event) : Prop :=
  match e with
  | EvSeek _ o => o = off
  | EvRead _ b l | EvWrite _ b l => b = buf /\ l = len
  | EvRandFill b l => b = buf /\ l = len
  | _ => True
  end.


(** How many of the integers from [from] on, [len] of them, are [q] modulo
    [nq]. *)
Definition hits (nq q : Z) (from len : nat) : Z :=
  Z.of_nat (length (filter (fun j => Z.of_nat j mod nq =? q) (seq from len))).

(** The lengths of the queues of indices [ks], added up. *)
Definition sum_lengths (f : Z -> list readreq) (ks : list nat) : Z :=
  fold_right Z.add 0 (map (fun k => Z.of_nat (length (f (Z.of_nat k)))) ks).

Definition overloaded_exit (p : gen_pc) : Z :=
  match p with GenReturned true => 1 | _ => 0 end.

(** What holds of the counter in every state the threads can reach. *)
Definition counter_inv (c : act_cfg) (s : sys) : Prop :=
  g_read_reqs_queued (shared s)
    = total_queued c (shared s) + total_held (workers s) + unpushed (gpc s) /\
  g_read_reqs_queued (shared s) <= MAX_READ_REQS_QUEUED + overloaded_exit (gpc s) /\
  Forall (fun p => 0 <= fst p < num_queues c) (workers s) /\
  (mpc s <> MainReporting -> g_running (shared s) = false) /\
  (mpc s = MainJoinWorkers \/ mpc s = MainDone -> exists b, gpc s = GenReturned b) /\
  (mpc s = MainDone -> Forall returned (workers s)).

(** ** Concrete runs *)

(** The defaults of the configuration file, for one device and two queues
    of one worker each. *)
Definition cfg_default : act_cfg :=
  {| num_devices := 1; num_queues := 2; threads_per_queue := 1;
     read_reqs_per_sec := 2000; write_reqs_per_sec := 1000;
     record_bytes := 1536; large_block_ops_bytes := 131072;
     max_reqs_queued := 100000 |}.

Definition with_record_bytes (c : act_cfg) (v : Z) : act_cfg :=
  {| num_devices := num_devices c; num_queues := num_queues c;
     threads_per_queue := threads_per_queue c;
     read_reqs_per_sec := read_reqs_per_sec c;
     write_reqs_per_sec := write_reqs_per_sec c;
     record_bytes := v; large_block_ops_bytes := large_block_ops_bytes c;
     max_reqs_queued := max_reqs_queued c |}.

Definition with_max_reqs_queued (c : act_cfg) (v : Z) : act_cfg :=
  {| num_devices := num_devices c; num_queues := num_queues c;
     threads_per_queue := threads_per_queue c;
     read_reqs_per_sec := read_reqs_per_sec c;
     write_reqs_per_sec := write_reqs_per_sec c;
     record_bytes := record_bytes c;
     large_block_ops_bytes := large_block_ops_bytes c;
     max_reqs_queued := v |}.

Definition blank_world : world :=
  {| g_running := false; g_read_reqs_queued := 0;
     fd_queue := fun _ => []; req_queue := fun _ => [];
     histogram := fun _ => []; trace := [] |}.

(** A device of [bytes] bytes that opens as descriptor 3 and reads in
    units of [min_op] bytes and more. *)
Definition disk (bytes min_op : Z) : dev_env :=
  {| open_ret := 3; device_bytes := bytes; seek0_ret := 0;
     memalign_status := 0; memalign_pv := 409600;
     probe_read_ret := fun s => if s <? min_op then -1 else s |}.

Definition one_disk (bytes min_op : Z) : list setup_env :=
  [{| queue_ok := true; hist_ok := true; dev := disk bytes min_op |}].


Definition world_of (r : outcome (option (world * list device))) : world :=
  match r with
  | Ret (Some (w, _)) => w
  | _ => blank_world
  end.

Definition geometry_of (r : outcome (world * device * bool)) : option (device * bool) :=
  match r with
  | Ret (_, d, ok) => Some (d, ok)
  | Trap => None
  end.

Definition probed_device (c : act_cfg) (e : dev_env) : device :=
  match discover_num_blocks c e blank_world (blank_device 0) with
  | Ret (_, d, _) => d
  | Trap => blank_device 0
  end.

Definition probed_world (c : act_cfg) (e : dev_env) : world :=
  match discover_num_blocks c e blank_world (blank_device 0) with
  | Ret (w, _, _) => w
  | Trap => blank_world
  end.

Definition dev_1g_512 : device :=
  {| n := 0; num_large_blocks := 8192; num_read_offsets := 2097150;
     min_op_bytes := 512; read_bytes := 1536 |}.

Definition req_4608 : readreq :=
  {| p_device := dev_1g_512; offset := 4608; size := 1536; start_time := 0 |}.

Definition req_example : readreq :=
  {| p_device := blank_device 0; offset := 4096; size := 1536; start_time := 50 |}.

(** A round of the generator with no other thread in between. *)
Definition alone (r r1 r2 : Z) : gen_input :=
  {| g_before := fun w => w; g_rand := r; g_r1 := r1; g_r2 := r2;
     g_now_ns := 0; g_elapsed_us := 0 |}.

Definition io_good (len : Z) : io_env :=
  {| io_open_ret := 3; io_seek_ok := true; io_xfer_ret := len; io_stop_ns := 900 |}.

Definition io_bad_seek : io_env :=
  {| io_open_ret := 3; io_seek_ok := false; io_xfer_ret := 0; io_stop_ns := 900 |}.

Definition at_stack (sb : Z) (io : io_env) : worker_input :=
  {| wk_before := fun w => w; wk_stack_buffer := sb; wk_raw_start := 100;
     wk_io := io |}.

(** Records of 1 MiB, and what setup makes of a device of 128 KiB that
    reads in units of 512 bytes under that configuration. *)
Definition cfg_big_records : act_cfg := with_record_bytes cfg_default 1048576.

Definition dev_128k_512 : device :=
  {| n := 0; num_large_blocks := 1; num_read_offsets := 18446744073709549825;
     min_op_bytes := 512; read_bytes := 1048576 |}.



Definition cfg_one_queue : act_cfg :=
  {| num_devices := 1; num_queues := 1; threads_per_queue := 1;
     read_reqs_per_sec := 2000; write_reqs_per_sec := 0;
     record_bytes := 1536; large_block_ops_bytes := 131072;
     max_reqs_queued := 100000 |}.

(** Records of 2^32 - 1 bytes. *)
Definition cfg_huge_records : act_cfg := with_record_bytes cfg_default 4294967295.

Definition dev_1g_512_huge : device :=
  {| n := 0; num_large_blocks := 8192; num_read_offsets := 2097153;
     min_op_bytes := 512; read_bytes := 0 |}.

(** The run of one generator and one worker in which main stops the run
    while the worker serves a first request and a second one waits in the
    queue. *)
Definition req_0 : readreq :=
  {| p_device := dev_1g_512; offset := 0; size := 1536; start_time := 0 |}.

Definition world_at_stop : world :=
  let w1 := cf_queue_push_req (set_read_reqs_queued (started blank_world) 1) 0 req_0 in
  let w2 := set_req_queue w1 0 [] in
  let w3 := cf_queue_push_req (set_read_reqs_queued w2 2) 0 req_4608 in
  set_running w3 false.

Definition after_stop_under_load : sys :=
  {| shared := serve_readreq world_at_stop req_0 (at_stack 5000 (io_good 1536));
     gpc := GenReturned false; gcount := 2;
     workers := [(0, WkReturned)]; mpc := MainDone |}.

(** The same run just after main has cleared g_running: the worker still
    holds the first request, the generator is at the head of its loop. *)
Definition stopped_under_load : sys :=
  {| shared := world_at_stop; gpc := GenTop; gcount := 2;
     workers := [(0, WkServe req_0)]; mpc := MainJoinGen |}.

(** ** Closing the descriptors of a device *)

(** fd_close_all: pop and close until the pool is empty. Each round takes
    one descriptor out, so the length of the pool bounds the rounds. *)
Fixpoint fd_close_loop (rounds : nat) (w : world) (d : device) : world :=
  match fd_queue w (n d) with
  | [] => w
  | fd :: rest =>
      match rounds with
      | O => w
      | S k => fd_close_loop k (emit (set_fd_queue w (n d) rest) (EvClose fd)) d
      end
  end.

Definition fd_close_all (w : world) (d : device) : world :=
  fd_close_loop (length (fd_queue w (n d))) w d.

(** Descriptors that a stretch of the trace brings into the process: one
    for an open() that succeeded, one less for a close(). *)
Definition descriptor_change (e : event) : Z :=
  match e with
  | EvOpen _ ret => if ret =? -1 then 0 else 1
  | EvClose _ => -1
  | _ => 0
  end.

Definition descriptors_gained (es : list event) : Z :=
  fold_right (fun e a => descriptor_change e + a) 0 es.

(** The operations one device sees, in the order they are made. *)
Inductive dev_op : Type :=
| DevRead (off len buf : Z) (io : io_env)
| DevWrite (off len buf : Z) (io : io_env).

Definition do_op (w : world) (d : device) (o : dev_op) : world :=
  match o with
  | DevRead off len buf io => fst (read_from_device w d off len buf io)
  | DevWrite off len buf io => fst (write_to_device w d off len buf io)
  end.

Definition do_ops (w : world) (d : device) (os : list dev_op) : world :=
  fold_left (fun w0 o => do_op w0 d o) os w.

(** ** The clock of clock.h *)

(** What clock_gettime(CLOCK_MONOTONIC) stored. *)
Record timespec : Type := {
  tv_sec : Z;
  tv_nsec : Z
}.

(** cf_getms *)
Definition cf_getms (ts : timespec) : Z :=
  u64 (u64 (tv_nsec ts) / 1000000 + u64 (u64 (tv_sec ts) * 1000)).

(** cf_getus *)
Definition cf_getus (ts : timespec) : Z :=
  u64 (u64 (tv_nsec ts) / 1000 + u64 (u64 (tv_sec ts) * 1000000)).

(** cf_getns *)
Definition cf_getns (ts : timespec) : Z :=
  u64 (u64 (tv_nsec ts) + u64 (u64 (tv_sec ts) * 1000000000)).

(** A time the kernel can report: nanoseconds below one second, and few
    enough seconds for the nanosecond count to fit 64 bits. *)
Definition valid_timespec (ts : timespec) : Prop :=
  0 <= tv_sec ts < 18446744073 /\ 0 <= tv_nsec ts < 1000000000.

Definition timespec_le (a b : timespec) : Prop :=
  tv_sec a < tv_sec b \/ (tv_sec a = tv_sec b /\ tv_nsec a <= tv_nsec b).

(** ** I/O schedulers *)

Section Schedulers.

Import String Ascii.

(** strrchr(s, '/'): the part of [s] from its last slash on, if it has one. *)
Fixpoint strrchr_slash (s : string) : option string :=
  match s with
  | EmptyString => None
  | String ch rest =>
      match strrchr_slash rest with
      | Some t => Some t
      | None => if Ascii.eqb ch "/" then Some s else None
      end
  end.

(** device_tag of set_schedulers: what follows the last slash, or the
    whole name. *)
Definition device_tag (device_name : string) : string :=
  match strrchr_slash device_name with
  | Some (String _ t) => t
  | _ => device_name
  end.

(** The strcpy and the two strcat into char scheduler_file_name[128];
    writing past the array is undefined behaviour. *)
Definition scheduler_file_name (tag : string) : outcome string :=
  let s1 := "/sys/block/"%string in
  let s2 := (s1 ++ tag)%string in
  if (128 <=? Z.of_nat (String.length s2))%Z then Trap
  else
    let s3 := (s2 ++ "/queue/scheduler")%string in
    if (128 <=? Z.of_nat (String.length s3))%Z then Trap else Ret s3.

Inductive sched_event : Type :=
| SchedOpen (file : string) (ok : bool)
| SchedPrintOpenErr (file : string)
| SchedWrite (file mode : string) (ok : bool)
| SchedPrintWriteErr (file mode : string)
| SchedClose (file : string).

(** set_schedulers, over the device names of the configuration. [mode] is
    SCHEDULER_MODES[g_cfg.scheduler_mode]; [fopen_ok] and [fwrite_ok] say,
    by file name, whether fopen and fwrite succeed. *)
Fixpoint set_schedulers (mode : string) (fopen_ok fwrite_ok : string -> bool)
    (names : list string) : outcome (list sched_event) :=
  match names with
  | [] => Ret []
  | device_name :: rest =>
      file <- scheduler_file_name (device_tag device_name) ;;
      if negb (fopen_ok file) then
        evs <- set_schedulers mode fopen_ok fwrite_ok rest ;;
        Ret (SchedOpen file false :: SchedPrintOpenErr file :: evs)
      else
        let wrote :=
          if fwrite_ok file then [SchedWrite file mode true]
          else [SchedWrite file mode false; SchedPrintWriteErr file mode] in
        evs <- set_schedulers mode fopen_ok fwrite_ok rest ;;
        Ret (SchedOpen file true :: wrote ++ SchedClose file :: evs)
  end.

Definition opened_files (evs : list sched_event) : list string :=
  flat_map (fun e => match e with SchedOpen f _ => [f] | _ => [] end) evs.

(** [s] has no slash. *)
Fixpoint slash_free (s : string) : bool :=
  match s with
  | EmptyString => true
  | String ch rest => negb (Ascii.eqb ch "/") && slash_free rest
  end.

(** The name set_schedulers builds for a device, when it fits the array. *)
Definition scheduler_path (device_name : string) : string :=
  (("/sys/block/" ++ device_tag device_name) ++ "/queue/scheduler")%string.

End Schedulers.

(** ** Rounds that no other thread comes between *)

Definition undisturbed_gen (i : gen_input) : Prop := forall w, g_before i w = w.
Definition undisturbed_worker (i : worker_input) : Prop := forall w, wk_before i w = w.

(** The world after the probe that main runs for device [i]. *)
Definition after_probe (c : act_cfg) (e : dev_env) (w : world) (i : Z) : world :=
  match discover_num_blocks c e (set_fd_queue w i []) (blank_device i) with
  | Ret (w', _, _) => w'
  | Trap => w
  end.

Definition undisturbed_lb (p : (world -> world) * lb_input) : Prop :=
  forall w, fst p w = w.

Definition blank_world_running : world := started blank_world.

(** The world after one large-block read at offset 0 on the 1 GiB device. *)
Definition after_large_read : world :=
  histogram_insert_data_point
    (fd_put (emit (emit (emit blank_world_running (EvOpen 0 3)) (EvSeek 3 0))
               (EvRead 3 8192 131072)) dev_1g_512 3)
    LargeBlockReads 900.

(** * Properties *)

(** ** Machine integers *)

Lemma u64_small x : is_u64 x -> u64 x = x.
Proof. intros H. apply Z.mod_small. exact H. Qed.

Lemma u32_small x : is_u32 x -> u32 x = x.
Proof. intros H. apply Z.mod_small. exact H. Qed.

Lemma u64_range x : is_u64 (u64 x).
Proof. apply Z.mod_pos_bound. lia. Qed.

Lemma u32_range x : is_u32 (u32 x).
Proof. apply Z.mod_pos_bound. lia. Qed.

Lemma u32_le x : 0 <= x -> u32 x <= x.
Proof. intros H. apply Z.mod_le; lia. Qed.


Lemma rand_48_nonneg r1 r2 : 0 <= rand_48 r1 r2.
Proof.
  unfold rand_48. apply Z.lor_nonneg. split.
  - apply u64_range.
  - apply Z.land_nonneg. right. lia.
Qed.

(** ** Geometry probe *)

Lemma probe_loop_values e w fd buf w' m :
  probe_loop 4 e w fd buf LO_IO_MIN_SIZE = Some (w', m) ->
  In m [0; 512; 1024; 2048; 4096].
Proof.
  unfold LO_IO_MIN_SIZE. cbn.
  repeat match goal with
         | |- context [probe_read_ret e ?s =? ?s] =>
             destruct (probe_read_ret e s =? s)
         end;
    intros H; inversion H; subst; simpl; tauto.
Qed.

Lemma probe_loop_total e w fd buf :
  exists r, probe_loop 4 e w fd buf LO_IO_MIN_SIZE = Some r.
Proof.
  unfold LO_IO_MIN_SIZE. cbn.
  repeat match goal with
         | |- context [probe_read_ret e ?s =? ?s] =>
             destruct (probe_read_ret e s =? s)
         end; eexists; reflexivity.
Qed.

Lemma discover_min_op_bytes_values e w fd :
  In (snd (discover_min_op_bytes e w fd)) [0; 512; 1024; 2048; 4096].
Proof.
  unfold discover_min_op_bytes.
  destruct (negb (seek0_ret e =? 0)); [simpl; tauto|].
  destruct (cf_valloc (memalign_status e) (memalign_pv e) =? 0); [simpl; tauto|].
  destruct (probe_loop 4 e (emit w (EvSeek fd 0)) fd
              (cf_valloc (memalign_status e) (memalign_pv e)) LO_IO_MIN_SIZE)
    as [[w' m]|] eqn:E; [|simpl; tauto].
  apply probe_loop_values in E. exact E.
Qed.



Lemma discover_num_blocks_true c e w d0 w' d :
  discover_num_blocks c e w d0 = Ret (w', d, true) ->
  probed c e d /\ n d = n d0.
Proof.
  unfold discover_num_blocks.
  destruct (fd_get w d0 (open_ret e)) as [w1 fd].
  destruct (fd =? -1); [discriminate|].
  unfold udiv at 1.
  destruct (large_block_ops_bytes c =? 0) eqn:Eb; [discriminate|].
  apply Z.eqb_neq in Eb. cbn [bind].
  pose proof (discover_min_op_bytes_values e w1 fd) as Hm.
  destruct (discover_min_op_bytes e w1 fd) as [w2 m]. cbn [snd] in Hm.
  cbn [set_min_op_bytes set_num_large_blocks num_large_blocks min_op_bytes n
       num_read_offsets read_bytes].
  destruct (device_bytes e / large_block_ops_bytes c =? 0) eqn:En;
    [discriminate|].
  destruct (u32 m =? 0) eqn:Em; [discriminate|].
  apply Z.eqb_neq in En. apply Z.eqb_neq in Em.
  assert (Hm' : In (u32 m) [512; 1024; 2048; 4096]).
  { simpl in Hm. destruct Hm as [<- | [<- | [<- | [<- | [<- | []]]]]];
      try (exfalso; apply Em; reflexivity); cbv; tauto. }
  cbn [orb]. unfold num_min_op_blocks, read_req_min_op_blocks, udiv.
  cbn [set_min_op_bytes set_num_large_blocks num_large_blocks min_op_bytes n
       num_read_offsets read_bytes].
  rewrite (proj2 (Z.eqb_neq _ _) Em). cbn [bind].
  intros H. inversion H; subst; clear H.
  split; [|reflexivity].
  constructor; cbn; auto.
Qed.






(** ** Alignment *)

Lemma align_4096_eq sb : align_4096 sb = u64 (sb + 4095) / 4096 * 4096.
Proof.
  unfold align_4096.
  set (y := u64 (sb + 4095)).
  assert (Hy : is_u64 y) by apply u64_range.
  unfold u64 at 1. rewrite <- (Z.land_ones _ 64) by lia.
  rewrite Z.land_assoc, (Z.land_comm y), <- Z.land_assoc.
  rewrite (Z.land_ones y 64) by lia.
  fold (u64 y). rewrite (u64_small y Hy).
  rewrite Z.land_comm, <- Z.ldiff_land.
  change 4095 with (Z.ones 12).
  rewrite Z.ldiff_ones_r by lia.
  rewrite Z.shiftl_mul_pow2, Z.shiftr_div_pow2 by lia.
  reflexivity.
Qed.

Lemma align_4096_aligned sb : align_4096 sb mod 4096 = 0.
Proof. rewrite align_4096_eq. apply Z.mod_mul. lia. Qed.


(** ** Latencies *)

Lemma safe_delta_ns_max start stop :
  is_u64 start -> is_u64 stop ->
  safe_delta_ns start stop = Z.max 0 (stop - start).
Proof.
  unfold safe_delta_ns, is_u64. intros Hs Ht.
  destruct (start >? stop) eqn:E.
  - apply Z.gtb_lt in E. lia.
  - assert (start <= stop) by (rewrite Z.gtb_ltb in E; apply Z.ltb_ge in E; lia).
    rewrite u64_small by (unfold is_u64; lia). lia.
Qed.

(** ** What the engine leaves untouched, and what it issues *)

Ltac open_fd_get w d o :=
  unfold fd_get; destruct (fd_queue w (n d)) as [|?fd ?rest];
  [destruct (o =? -1)|].

Lemma fd_get_frame w d o :
  let w1 := fst (fd_get w d o) in
  g_running w1 = g_running w /\
  g_read_reqs_queued w1 = g_read_reqs_queued w /\
  req_queue w1 = req_queue w /\
  histogram w1 = histogram w.
Proof. open_fd_get w d o; cbn; auto. Qed.

Ltac open_engine f w d io :=
  unfold f;
  let w1 := fresh "w1" in
  let fd := fresh "fd" in
  destruct (fd_get w d (io_open_ret io)) as [w1 fd];
  destruct (fd =? -1);
  [|destruct (negb (u64 (lseek_ret (io_seek_ok io) _) =? _));
    [|destruct (negb (io_xfer_ret io =? _))]].

Lemma read_from_device_frame w d off len buf io :
  let w' := fst (read_from_device w d off len buf io) in
  g_running w' = g_running w /\
  g_read_reqs_queued w' = g_read_reqs_queued w /\
  req_queue w' = req_queue w /\
  histogram w' = histogram w.
Proof.
  pose proof (fd_get_frame w d (io_open_ret io)) as F.
  open_engine read_from_device w d io; cbn in *; exact F.
Qed.

Lemma write_to_device_frame w d off len buf io :
  let w' := fst (write_to_device w d off len buf io) in
  g_running w' = g_running w /\
  g_read_reqs_queued w' = g_read_reqs_queued w /\
  req_queue w' = req_queue w /\
  histogram w' = histogram w.
Proof.
  pose proof (fd_get_frame w d (io_open_ret io)) as F.
  open_engine write_to_device w d io; cbn in *; exact F.
Qed.


Lemma fd_get_trace w d o off len buf :
  exists es, trace (fst (fd_get w d o)) = trace w ++ es /\
             Forall (about off len buf) es.
Proof.
  open_fd_get w d o; cbn.
  - exists [EvOpen (n d) o; EvPrint ErrOpenDevice].
    rewrite <- app_assoc. split; [reflexivity|]. repeat constructor.
  - exists [EvOpen (n d) o]. split; [reflexivity|]. repeat constructor.
  - exists []. rewrite app_nil_r. split; [reflexivity|]. constructor.
Qed.

Ltac extend_trace T es0 es1 :=
  exists (es0 ++ es1); cbn [trace emit fd_put set_fd_queue fst];
  rewrite T; repeat rewrite <- app_assoc; cbn [app];
  split;
  [reflexivity
  |apply Forall_app; split; [assumption | repeat constructor; cbn; auto]].

Lemma read_from_device_trace w d off len buf io :
  exists es, trace (fst (read_from_device w d off len buf io)) = trace w ++ es /\
             Forall (about off len buf) es.
Proof.
  destruct (fd_get_trace w d (io_open_ret io) off len buf) as (es0 & T & A).
  open_engine read_from_device w d io; cbn [fst] in *.
  - exists es0. auto.
  - extend_trace T es0 [EvSeek fd off; EvClose fd; EvPrint ErrSeekRead].
  - extend_trace T es0 [EvSeek fd off; EvRead fd buf len; EvClose fd;
                      EvPrint ErrSeekRead].
  - extend_trace T es0 [EvSeek fd off; EvRead fd buf len].
Qed.

Lemma write_to_device_trace w d off len buf io :
  exists es, trace (fst (write_to_device w d off len buf io)) = trace w ++ es /\
             Forall (about off len buf) es.
Proof.
  destruct (fd_get_trace w d (io_open_ret io) off len buf) as (es0 & T & A).
  open_engine write_to_device w d io; cbn [fst] in *.
  - exists es0. auto.
  - extend_trace T es0 [EvSeek fd off; EvClose fd; EvPrint ErrSeekWrite].
  - extend_trace T es0 [EvSeek fd off; EvWrite fd buf len; EvClose fd;
                      EvPrint ErrSeekWrite].
  - extend_trace T es0 [EvSeek fd off; EvWrite fd buf len].
Qed.

Lemma read_and_report_frame w r buf raw io :
  let w' := read_and_report w r buf raw io in
  g_running w' = g_running w /\
  g_read_reqs_queued w' = g_read_reqs_queued w /\
  req_queue w' = req_queue w.
Proof.
  unfold read_and_report.
  pose proof (read_from_device_frame w (p_device r) (offset r) (size r) buf io) as F.
  destruct (read_from_device w (p_device r) (offset r) (size r) buf io) as [w1 t].
  cbn [fst] in F. destruct (negb (t =? IO_FAILED)); cbn; tauto.
Qed.


(** ** The engine, case by case *)

Lemma lseek_success_accepted off :
  is_u64 off -> (u64 (lseek_ret true off) =? off) = true.
Proof.
  unfold is_u64, lseek_ret, to_i64, u64. intros H. apply Z.eqb_eq.
  destruct (off <? 2 ^ 63) eqn:E.
  - apply Z.mod_small. lia.
  - apply Z.ltb_ge in E.
    replace (off - 2 ^ 64) with (off + (-1) * 2 ^ 64) by lia.
    rewrite Z.mod_add by lia. apply Z.mod_small. lia.
Qed.

Lemma lseek_failure_seen off :
  off <> 2 ^ 64 - 1 -> (u64 (lseek_ret false off) =? off) = false.
Proof. intros H. apply Z.eqb_neq. cbv - [Z.sub Z.pow] in *. cbv in *. congruence. Qed.

Lemma fd_get_emit w e d o :
  snd (fd_get (emit w e) d o) = snd (fd_get w d o).
Proof.
  unfold fd_get. cbn [fd_queue emit].
  destruct (fd_queue w (n d)); [destruct (o =? -1)|]; reflexivity.
Qed.

Section Engine.

Variables (w : world) (d : device) (off len buf : Z) (io : io_env).
Variables (w1 : world) (fd : Z).
Hypothesis Hoff : 0 <= off < 2 ^ 64 - 1.
Hypothesis Hget : fd_get w d (io_open_ret io) = (w1, fd).
Hypothesis Hfd : fd <> -1.

Lemma read_from_device_failure :
  io_seek_ok io = false \/ io_xfer_ret io <> len ->
  exists es,
    read_from_device w d off len buf io =
    ({| g_running := g_running w1;
        g_read_reqs_queued := g_read_reqs_queued w1;
        fd_queue := fd_queue w1; req_queue := req_queue w1;
        histogram := histogram w1; trace := trace w1 ++ es |}, IO_FAILED)
    /\ In (EvClose fd) es.
Proof.
  intros Hf. unfold read_from_device. rewrite Hget.
  rewrite (proj2 (Z.eqb_neq _ _) Hfd).
  destruct (io_seek_ok io) eqn:Es.
  - rewrite lseek_success_accepted by (unfold is_u64; lia). cbn [negb].
    destruct Hf as [Hf|Hf]; [discriminate|].
    rewrite (proj2 (Z.eqb_neq _ _) Hf). cbn [negb].
    exists [EvSeek fd off; EvRead fd buf len; EvClose fd; EvPrint ErrSeekRead].
    split; [|simpl; tauto].
    unfold emit; cbn. repeat rewrite <- app_assoc. reflexivity.
  - rewrite lseek_failure_seen by lia. cbn [negb].
    exists [EvSeek fd off; EvClose fd; EvPrint ErrSeekRead].
    split; [|simpl; tauto].
    unfold emit; cbn. repeat rewrite <- app_assoc. reflexivity.
Qed.

Lemma write_to_device_failure :
  io_seek_ok io = false \/ io_xfer_ret io <> len ->
  exists es,
    write_to_device w d off len buf io =
    ({| g_running := g_running w1;
        g_read_reqs_queued := g_read_reqs_queued w1;
        fd_queue := fd_queue w1; req_queue := req_queue w1;
        histogram := histogram w1; trace := trace w1 ++ es |}, IO_FAILED)
    /\ In (EvClose fd) es.
Proof.
  intros Hf. unfold write_to_device. rewrite Hget.
  rewrite (proj2 (Z.eqb_neq _ _) Hfd).
  destruct (io_seek_ok io) eqn:Es.
  - rewrite lseek_success_accepted by (unfold is_u64; lia). cbn [negb].
    destruct Hf as [Hf|Hf]; [discriminate|].
    rewrite (proj2 (Z.eqb_neq _ _) Hf). cbn [negb].
    exists [EvSeek fd off; EvWrite fd buf len; EvClose fd; EvPrint ErrSeekWrite].
    split; [|simpl; tauto].
    unfold emit; cbn. repeat rewrite <- app_assoc. reflexivity.
  - rewrite lseek_failure_seen by lia. cbn [negb].
    exists [EvSeek fd off; EvClose fd; EvPrint ErrSeekWrite].
    split; [|simpl; tauto].
    unfold emit; cbn. repeat rewrite <- app_assoc. reflexivity.
Qed.

Lemma read_from_device_success :
  io_seek_ok io = true -> io_xfer_ret io = len ->
  read_from_device w d off len buf io =
  (fd_put (emit (emit w1 (EvSeek fd off)) (EvRead fd buf len)) d fd,
   io_stop_ns io).
Proof.
  intros Es Ex. unfold read_from_device. rewrite Hget.
  rewrite (proj2 (Z.eqb_neq _ _) Hfd), Es.
  rewrite lseek_success_accepted by (unfold is_u64; lia). cbn [negb].
  rewrite (proj2 (Z.eqb_eq _ _) Ex). reflexivity.
Qed.

Lemma write_to_device_success :
  io_seek_ok io = true -> io_xfer_ret io = len ->
  write_to_device w d off len buf io =
  (fd_put (emit (emit w1 (EvSeek fd off)) (EvWrite fd buf len)) d fd,
   io_stop_ns io).
Proof.
  intros Es Ex. unfold write_to_device. rewrite Hget.
  rewrite (proj2 (Z.eqb_neq _ _) Hfd), Es.
  rewrite lseek_success_accepted by (unfold is_u64; lia). cbn [negb].
  rewrite (proj2 (Z.eqb_eq _ _) Ex). reflexivity.
Qed.

End Engine.

(** ** The generator loop *)

Lemma enqueue_readreq_inv c devs w count i w' qi r :
  enqueue_readreq c devs w count i = Ret (w', qi, r) ->
  num_queues c <> 0 /\ qi = u32 (count mod num_queues c) /\
  w' = cf_queue_push_req w qi r /\
  In (p_device r) devs /\
  size r = read_bytes (p_device r) /\
  start_time r = g_now_ns i /\
  random_read_offset (p_device r) (g_r1 i) (g_r2 i) = Ret (offset r).
Proof.
  unfold enqueue_readreq, umod.
  destruct (num_queues c =? 0) eqn:Eq; [discriminate|]. cbn [bind].
  destruct (num_devices c =? 0); [discriminate|]. cbn [bind].
  destruct (nth_error devs _) as [d|] eqn:Ed; [|discriminate].
  destruct (random_read_offset d (g_r1 i) (g_r2 i)) as [off|] eqn:Eo;
    [|discriminate].
  cbn [bind]. intros H. inversion H; subst; clear H. cbn.
  apply Z.eqb_neq in Eq. apply nth_error_In in Ed. auto 10.
Qed.


Lemma pushed_queues c devs ins : forall w count,
  0 < num_queues c < 2 ^ 32 -> 0 <= count ->
  count + Z.of_nat (length (pushed (add_readreqs_loop c devs ins w count)))
    <= 2 ^ 64 ->
  map fst (pushed (add_readreqs_loop c devs ins w count)) =
  map (fun j => (count + Z.of_nat j) mod num_queues c)
      (seq 0 (length (pushed (add_readreqs_loop c devs ins w count)))).
Proof.
  intros w count Hq. revert w count.
  induction ins as [|i ins IH]; intros w count Hc Hl;
    cbn [add_readreqs_loop] in *; [reflexivity|].
  destruct (negb (g_running (g_before i w))); [reflexivity|].
  destruct (too_many_queued (g_before i w)) as [w1 over].
  destruct over; [reflexivity|].
  destruct (enqueue_readreq c devs w1 count i) as [[[w2 qi] r]|] eqn:E;
    [|reflexivity].
  apply enqueue_readreq_inv in E. destruct E as (_ & Eqi & _).
  assert (Hqi : qi = (count + 0) mod num_queues c).
  { rewrite Eqi, Z.add_0_r. apply u32_small.
    pose proof (Z.mod_pos_bound count (num_queues c)). unfold is_u32. lia. }
  destruct (pace c (u64 (count + 1)) i);
    cbn [pushed gen_cons gen_stop length map seq] in *.
  - f_equal; [exact Hqi|].
    destruct (pushed (add_readreqs_loop c devs ins w2 (u64 (count + 1))))
      as [|p l] eqn:P; [reflexivity|].
    assert (Hs : u64 (count + 1) = count + 1).
    { apply u64_small. unfold is_u64. cbn [length] in Hl. lia. }
    specialize (IH w2 (u64 (count + 1))). rewrite P, Hs in IH.
    rewrite IH by (cbn [length] in *; lia).
    rewrite <- seq_shift, map_map. apply map_ext. intros j. f_equal. lia.
  - f_equal. exact Hqi.
Qed.

(** ** Counting residues in a run of consecutive integers *)


Lemma div_by_bounds a b v : 0 <= a - b * v < b -> a / b = v.
Proof.
  intros H. symmetry. apply (Z.div_unique a b v (a - b * v)); lia.
Qed.

Lemma hits_step nq q m :
  0 <= q < nq -> 0 <= m ->
  (m + 1 + nq - 1 - q) / nq - (m + nq - 1 - q) / nq
  = if m mod nq =? q then 1 else 0.
Proof.
  intros Hq Hm.
  pose proof (Z.div_mod m nq ltac:(lia)) as D.
  pose proof (Z.mod_pos_bound m nq ltac:(lia)) as B.
  set (k := m / nq) in *. set (r := m mod nq) in *.
  destruct (r =? q) eqn:E.
  - apply Z.eqb_eq in E.
    rewrite (div_by_bounds (m + 1 + nq - 1 - q) nq (k + 1)) by nia.
    rewrite (div_by_bounds (m + nq - 1 - q) nq k) by nia. lia.
  - apply Z.eqb_neq in E.
    destruct (Z_lt_le_dec r q).
    + rewrite (div_by_bounds (m + 1 + nq - 1 - q) nq k) by nia.
      rewrite (div_by_bounds (m + nq - 1 - q) nq k) by nia. lia.
    + rewrite (div_by_bounds (m + 1 + nq - 1 - q) nq (k + 1)) by nia.
      rewrite (div_by_bounds (m + nq - 1 - q) nq (k + 1)) by nia. lia.
Qed.

Lemma hits_formula nq q len : forall from,
  0 <= q < nq ->
  hits nq q from len =
  (Z.of_nat from + Z.of_nat len + nq - 1 - q) / nq
  - (Z.of_nat from + nq - 1 - q) / nq.
Proof.
  unfold hits. induction len as [|len IH]; intros from Hq.
  - cbn. rewrite Z.add_0_r. lia.
  - cbn [seq filter].
    pose proof (hits_step nq q (Z.of_nat from) Hq ltac:(lia)) as S.
    specialize (IH (Datatypes.S from) Hq).
    replace (Z.of_nat (Datatypes.S from)) with (Z.of_nat from + 1) in IH by lia.
    replace (Z.of_nat from + Z.of_nat (Datatypes.S len))
      with (Z.of_nat from + 1 + Z.of_nat len) by lia.
    destruct (Z.of_nat from mod nq =? q); cbn [length]; lia.
Qed.

Lemma share_of_window nq x len :
  0 < nq -> 0 <= x -> 0 <= len ->
  (x + len) / nq - x / nq = len / nq \/
  (x + len) / nq - x / nq = ceil_div len nq.
Proof.
  intros Hq Hx Hl. unfold ceil_div.
  pose proof (Z.div_mod x nq ltac:(lia)) as Dx.
  pose proof (Z.mod_pos_bound x nq ltac:(lia)) as Bx.
  pose proof (Z.div_mod len nq ltac:(lia)) as Dl.
  pose proof (Z.mod_pos_bound len nq ltac:(lia)) as Bl.
  set (a := x / nq) in *. set (r := x mod nq) in *.
  set (t := len / nq) in *. set (s := len mod nq) in *.
  destruct (Z_lt_le_dec (r + s) nq).
  - left. rewrite (div_by_bounds (x + len) nq (a + t)) by nia. lia.
  - right. rewrite (div_by_bounds (x + len) nq (a + t + 1)) by nia.
    rewrite (div_by_bounds (len + nq - 1) nq (t + 1)) by nia. lia.
Qed.

Lemma firstn_of_seq k : forall start len,
  (k <= len)%nat -> firstn k (seq start len) = seq start k.
Proof.
  induction k as [|k IH]; intros start len H; [reflexivity|].
  destruct len as [|len]; [lia|]. cbn. f_equal. apply IH. lia.
Qed.

Lemma received_hits nq q l from len :
  map fst l = map (fun j => (0 + Z.of_nat j) mod nq) (seq 0 (length l)) ->
  (from + len <= length l)%nat ->
  received q (window from len l) = hits nq q from len.
Proof.
  intros Hm Hb. unfold received, window, hits.
  assert (E : map fst (firstn len (skipn from l)) =
              map (fun j => Z.of_nat j mod nq) (seq from len)).
  { rewrite <- firstn_map, <- skipn_map, Hm.
    rewrite skipn_map, firstn_map, skipn_seq, firstn_of_seq by lia.
    apply map_ext. intros j. f_equal. }
  generalize dependent (seq from len). generalize (firstn len (skipn from l)).
  clear. intros l1. induction l1 as [|p l1 IH]; intros l2 E;
    destruct l2 as [|j l2]; try discriminate; [reflexivity|].
  cbn in E. inversion E as [[E1 E2]]. cbn [filter].
  rewrite E1. specialize (IH l2 E2).
  destruct (Z.of_nat j mod nq =? q); cbn [length]; lia.
Qed.

(** ** The request counter across the threads *)

Lemma large_block_lag_frame w m s :
  let w' := large_block_lag w m s in
  (g_running w' = g_running w \/ g_running w' = false) /\
  g_read_reqs_queued w' = g_read_reqs_queued w /\
  req_queue w' = req_queue w.
Proof.
  unfold large_block_lag.
  destruct (s >? 0); [cbn; auto|].
  destruct (s <? - MAX_SLEEP_LAG_USEC); cbn; auto.
Qed.

Lemma read_and_report_large_block_frame c w d buf r1 r2 start io w' :
  read_and_report_large_block c w d buf r1 r2 start io = Ret w' ->
  g_running w' = g_running w /\
  g_read_reqs_queued w' = g_read_reqs_queued w /\
  req_queue w' = req_queue w.
Proof.
  unfold read_and_report_large_block.
  destruct (random_large_block_offset c d r1 r2) as [off|]; [|discriminate].
  cbn [bind].
  pose proof (read_from_device_frame w d off (large_block_ops_bytes c) buf io) as F.
  destruct (read_from_device w d off (large_block_ops_bytes c) buf io) as [w1 t].
  cbn [fst] in F.
  destruct (negb (t =? IO_FAILED)); intros H; inversion H; subst; cbn; tauto.
Qed.

Lemma write_and_report_large_block_frame c w d buf r1 r2 start io w' :
  write_and_report_large_block c w d buf r1 r2 start io = Ret w' ->
  g_running w' = g_running w /\
  g_read_reqs_queued w' = g_read_reqs_queued w /\
  req_queue w' = req_queue w.
Proof.
  unfold write_and_report_large_block.
  destruct (random_large_block_offset c d r1 r2) as [off|]; [|discriminate].
  cbn [bind].
  set (w0 := emit w (EvRandFill buf (large_block_ops_bytes c))).
  pose proof (write_to_device_frame w0 d off (large_block_ops_bytes c) buf io) as F.
  destruct (write_to_device w0 d off (large_block_ops_bytes c) buf io) as [w1 t].
  cbn [fst] in F.
  destruct (negb (t =? IO_FAILED)); intros H; inversion H; subst; cbn; tauto.
Qed.

Lemma large_block_read_round_frame c w d buf i w' :
  large_block_read_round c w d buf i = Ret w' ->
  (g_running w' = g_running w \/ g_running w' = false) /\
  g_read_reqs_queued w' = g_read_reqs_queued w /\
  req_queue w' = req_queue w.
Proof.
  unfold large_block_read_round.
  destruct (read_and_report_large_block c w d buf (lb_r1 i) (lb_r2 i)
              (lb_start i) (lb_io i)) as [w1|] eqn:E; [|discriminate].
  apply read_and_report_large_block_frame in E. destruct E as (E1 & E2 & E3).
  cbn [bind]. intros H. inversion H; subst.
  pose proof (large_block_lag_frame w1 ErrLargeBlockReadsLag (lb_sleep_us i)) as F.
  cbn in F. rewrite <- E1, <- E2, <- E3. exact F.
Qed.

Lemma large_block_write_round_frame c w d buf i w' :
  large_block_write_round c w d buf i = Ret w' ->
  (g_running w' = g_running w \/ g_running w' = false) /\
  g_read_reqs_queued w' = g_read_reqs_queued w /\
  req_queue w' = req_queue w.
Proof.
  unfold large_block_write_round.
  destruct (write_and_report_large_block c w d buf (lb_r1 i) (lb_r2 i)
              (lb_start i) (lb_io i)) as [w1|] eqn:E; [|discriminate].
  apply write_and_report_large_block_frame in E. destruct E as (E1 & E2 & E3).
  cbn [bind]. intros H. inversion H; subst.
  pose proof (large_block_lag_frame w1 ErrLargeBlockWritesLag (lb_sleep_us i)) as F.
  cbn in F. rewrite <- E1, <- E2, <- E3. exact F.
Qed.

Lemma serve_readreq_frame w r i :
  let w' := serve_readreq w r i in
  g_running w' = g_running w /\
  g_read_reqs_queued w' = u32 (g_read_reqs_queued w - 1) /\
  req_queue w' = req_queue w.
Proof.
  unfold serve_readreq, cf_atomic32_decr.
  pose proof (read_and_report_frame w r (align_4096 (wk_stack_buffer i))
                (wk_raw_start i) (wk_io i)) as F.
  cbn in *. destruct F as (F1 & F2 & F3). rewrite F2. auto.
Qed.

Lemma too_many_queued_inv w w' over :
  too_many_queued w = (w', over) ->
  g_read_reqs_queued w' = u32 (g_read_reqs_queued w + 1) /\
  over = (u32 (g_read_reqs_queued w + 1) >? MAX_READ_REQS_QUEUED) /\
  req_queue w' = req_queue w /\
  g_running w' = (if over then false else g_running w).
Proof.
  unfold too_many_queued, cf_atomic32_incr.
  destruct (u32 (g_read_reqs_queued w + 1) >? MAX_READ_REQS_QUEUED);
    intros H; inversion H; subst; cbn; auto.
Qed.

Section Counter.

Variable c : act_cfg.
Variable devs : list device.


Lemma total_queued_sum w :
  total_queued c w = sum_lengths (req_queue w) (seq 0 (Z.to_nat (num_queues c))).
Proof. reflexivity. Qed.

Lemma sum_lengths_nonneg f ks : 0 <= sum_lengths f ks.
Proof. induction ks; cbn; [lia|]. fold (sum_lengths f ks). lia. Qed.

Lemma sum_lengths_update f qi q len : forall start,
  0 <= qi ->
  sum_lengths (fun i => if i =? qi then q else f i) (seq start len) =
  sum_lengths f (seq start len)
  + (if (Z.of_nat start <=? qi) && (qi <? Z.of_nat start + Z.of_nat len)
     then Z.of_nat (length q) - Z.of_nat (length (f qi)) else 0).
Proof.
  induction len as [|len IH]; intros start Hq.
  - cbn. destruct (Z.of_nat start <=? qi) eqn:E1;
      destruct (qi <? Z.of_nat start + 0) eqn:E2; cbn; try lia.
    all: apply Z.leb_le in E1; apply Z.ltb_lt in E2; lia.
  - cbn [seq map fold_right sum_lengths].
    fold (sum_lengths (fun i => if i =? qi then q else f i)
            (seq (Datatypes.S start) len)).
    fold (sum_lengths f (seq (Datatypes.S start) len)).
    rewrite IH by assumption.
    destruct (Z.of_nat start =? qi) eqn:E.
    + apply Z.eqb_eq in E. subst qi.
      replace (Z.of_nat start <=? Z.of_nat start) with true
        by (symmetry; apply Z.leb_le; lia).
      replace (Z.of_nat start <? Z.of_nat start + Z.of_nat (Datatypes.S len))
        with true by (symmetry; apply Z.ltb_lt; lia).
      replace (Z.of_nat (Datatypes.S start) <=? Z.of_nat start) with false
        by (symmetry; apply Z.leb_gt; lia).
      cbn [andb]. lia.
    + apply Z.eqb_neq in E.
      destruct (Z.of_nat (Datatypes.S start) <=? qi) eqn:E1;
        destruct (qi <? Z.of_nat (Datatypes.S start) + Z.of_nat len) eqn:E2;
        destruct (Z.of_nat start <=? qi) eqn:E3;
        destruct (qi <? Z.of_nat start + Z.of_nat (Datatypes.S len)) eqn:E4;
        cbn [andb]; try lia;
        repeat match goal with
               | H : (_ <=? _) = true |- _ => apply Z.leb_le in H
               | H : (_ <=? _) = false |- _ => apply Z.leb_gt in H
               | H : (_ <? _) = true |- _ => apply Z.ltb_lt in H
               | H : (_ <? _) = false |- _ => apply Z.ltb_ge in H
               end; lia.
Qed.

Lemma total_queued_set w qi q :
  0 <= qi < num_queues c ->
  total_queued c (set_req_queue w qi q) =
  total_queued c w + Z.of_nat (length q) - Z.of_nat (length (req_queue w qi)).
Proof.
  intros H. rewrite !total_queued_sum. cbn [req_queue set_req_queue].
  rewrite sum_lengths_update by lia.
  replace (Z.of_nat 0 <=? qi) with true by (symmetry; apply Z.leb_le; lia).
  replace (qi <? Z.of_nat 0 + Z.of_nat (Z.to_nat (num_queues c))) with true
    by (symmetry; apply Z.ltb_lt; lia).
  cbn [andb]. lia.
Qed.

Lemma total_queued_same w w' :
  req_queue w' = req_queue w -> total_queued c w' = total_queued c w.
Proof. intros H. rewrite !total_queued_sum, H. reflexivity. Qed.

Lemma total_queued_started w : total_queued c (started w) = 0.
Proof.
  rewrite total_queued_sum. cbn [req_queue started].
  generalize (seq 0 (Z.to_nat (num_queues c))).
  induction l; cbn; [reflexivity|]. exact IHl.
Qed.

Lemma total_held_app l1 p l2 :
  total_held (l1 ++ p :: l2) = total_held l1 + held p + total_held l2.
Proof.
  unfold total_held. rewrite map_app. cbn [map].
  induction (map held l1); cbn; lia.
Qed.

Lemma total_held_nonneg l : 0 <= total_held l.
Proof.
  unfold total_held. induction l as [|p l IH]; cbn; [lia|].
  unfold held at 1. destruct (snd p); lia.
Qed.

Lemma all_workers_idle :
  total_held (all_workers c) = 0 /\
  Forall (fun p => 0 <= fst p < num_queues c) (all_workers c).
Proof.
  unfold all_workers.
  assert (R : forall k : nat, (k < Z.to_nat (num_queues c))%nat ->
              total_held (queue_workers c (Z.of_nat k)) = 0 /\
              Forall (fun p => 0 <= fst p < num_queues c)
                     (queue_workers c (Z.of_nat k))).
  { intros k Hk. unfold queue_workers.
    induction (Z.to_nat (threads_per_queue c)) as [|t IH]; cbn.
    - split; [reflexivity|constructor].
    - destruct IH as [IH1 IH2]. split.
      + unfold total_held in *. cbn. exact IH1.
      + constructor; [cbn; lia|exact IH2]. }
  assert (G : forall ks, Forall (fun k => (k < Z.to_nat (num_queues c))%nat) ks ->
              total_held (flat_map (fun k => queue_workers c (Z.of_nat k)) ks) = 0 /\
              Forall (fun p => 0 <= fst p < num_queues c)
                     (flat_map (fun k => queue_workers c (Z.of_nat k)) ks)).
  { induction ks as [|k ks IH]; intros F; cbn.
    - split; [reflexivity|constructor].
    - inversion F; subst. destruct (R k H1) as [R1 R2].
      destruct (IH H2) as [I1 I2]. split.
      + unfold total_held in *. rewrite map_app, fold_right_app, I1.
        exact R1.
      + apply Forall_app. auto. }
  apply G. apply Forall_forall. intros k Hk. apply in_seq in Hk. lia.
Qed.

End Counter.

Section Invariant.

Variable c : act_cfg.
Variable devs : list device.
Hypothesis Hqueues : 0 <= num_queues c.

Lemma workers_swap (P : Z * worker_pc -> Prop) l1 p p' l2 :
  Forall P (l1 ++ p :: l2) -> P p' -> Forall P (l1 ++ p' :: l2).
Proof.
  intros F H. apply Forall_app in F. destruct F as [F1 F2].
  inversion F2; subst. apply Forall_app. split; [assumption|].
  constructor; assumption.
Qed.

Lemma workers_at (P : Z * worker_pc -> Prop) l1 p l2 :
  Forall P (l1 ++ p :: l2) -> P p.
Proof.
  intros F. apply Forall_app in F. destruct F as [_ F]. inversion F; assumption.
Qed.

Lemma counter_inv_init w : counter_inv c (init c w).
Proof.
  destruct (all_workers_idle c) as [I1 I2].
  unfold counter_inv, init. cbn [shared gpc workers mpc].
  rewrite total_queued_started, I1. cbn.
  repeat split; try assumption; try congruence; try discriminate.
  - intros [H|H]; discriminate.
Qed.

Ltac worker_case Hw Eq x :=
  rewrite Eq in *;
  rewrite total_held_app in *; cbn [held snd] in *;
  repeat split;
  [ try lia
  | try lia
  | eapply workers_swap; [eassumption | apply (workers_at _ _ _ _ x)]
  | try assumption
  | try assumption
  | let D := fresh in
    intros D; specialize (Hw D); apply workers_at in Hw; discriminate Hw ].

Lemma counter_inv_step s s' :
  counter_inv c s -> step c devs s s' -> counter_inv c s'.
Proof.
  intros (Hx & Hb & Hq & Hr & Hg & Hw) St.
  pose proof (sum_lengths_nonneg (req_queue (shared s))
                (seq 0 (Z.to_nat (num_queues c)))) as Nq.
  rewrite <- total_queued_sum in Nq.
  pose proof (total_held_nonneg (workers s)) as Nh.
  inversion St; subst; unfold counter_inv; cbn [shared gpc workers mpc gcount].
  - (* the generator sees g_running set *)
    rewrite H in *. cbn [unpushed overloaded_exit] in *.
    repeat split; try assumption.
    intros M. destruct (Hg M) as [b Hb']. discriminate.
  - (* the generator sees g_running cleared *)
    rewrite H in *. cbn [unpushed overloaded_exit] in *.
    repeat split; try assumption. intros _. exists false. reflexivity.
  - (* the generator increments the counter *)
    rewrite H in *. cbn [unpushed overloaded_exit] in *.
    apply too_many_queued_inv in H0. destruct H0 as (E1 & E2 & E3 & E4).
    assert (U : u32 (g_read_reqs_queued (shared s) + 1)
                = g_read_reqs_queued (shared s) + 1).
    { apply u32_small. unfold is_u32, MAX_READ_REQS_QUEUED in *. lia. }
    rewrite U in *. rewrite (total_queued_same c _ _ E3), E1.
    destruct over; cbn [unpushed overloaded_exit].
    + repeat split; try assumption; try lia.
      * intros _. rewrite E4. reflexivity.
      * intros _. exists true. reflexivity.
    + symmetry in E2. rewrite Z.gtb_ltb in E2. apply Z.ltb_ge in E2.
      repeat split; try assumption; try lia.
      * intros M. rewrite E4. auto.
      * intros M. destruct (Hg M) as [b Hb']. discriminate.
  - (* the generator pushes a request *)
    rewrite H in *. cbn [unpushed overloaded_exit] in *.
    apply enqueue_readreq_inv in H0.
    destruct H0 as (Nz & Eqi & Ew & _). subst w'.
    assert (Rq : 0 <= qi < num_queues c).
    { pose proof (Z.mod_pos_bound (gcount s) (num_queues c) ltac:(lia)) as B.
      pose proof (u32_range (gcount s mod num_queues c)) as R.
      pose proof (u32_le (gcount s mod num_queues c) ltac:(lia)).
      unfold is_u32 in R. lia. }
    unfold cf_queue_push_req. rewrite (total_queued_set c _ _ _ Rq).
    rewrite length_app. cbn [length set_req_queue g_read_reqs_queued g_running].
    repeat split; try assumption; try lia.
    intros M. destruct (Hg M) as [b Hb']. discriminate.
  - (* a worker tests g_running *)
    pose proof Hq as Hq0. rewrite H in Hq0.
    worker_case Hw H Hq0; destruct (g_running (shared s)); cbn; lia.
  - (* a worker's pop times out *)
    pose proof Hq as Hq0. rewrite H in Hq0.
    worker_case Hw H Hq0.
  - (* a worker pops a request *)
    pose proof Hq as Hq0. rewrite H in Hq0.
    unfold cf_queue_pop_req in H0.
    destruct (req_queue (shared s) qi) as [|r0 rest] eqn:Eq; [discriminate|].
    inversion H0; subst; clear H0.
    assert (Rq : 0 <= qi < num_queues c) by (apply workers_at in Hq0; exact Hq0).
    rewrite (total_queued_set c (shared s) qi rest Rq), Eq.
    cbn [length set_req_queue g_read_reqs_queued g_running].
    worker_case Hw H Hq0.
  - (* a worker serves the request it holds *)
    pose proof Hq as Hq0. rewrite H in Hq0.
    pose proof (serve_readreq_frame (shared s) r i) as F. cbv zeta in F.
    destruct F as (F1 & F2 & F3).
    rewrite (total_queued_same c _ _ F3), F1, F2.
    pose proof (total_held_nonneg l1). pose proof (total_held_nonneg l2).
    assert (U : u32 (g_read_reqs_queued (shared s) - 1)
                = g_read_reqs_queued (shared s) - 1).
    { apply u32_small. rewrite H, total_held_app in Hx. cbn [held snd] in Hx.
      assert (0 <= unpushed (gpc s)) by (destruct (gpc s) as [| | |[|]]; cbn; lia).
      assert (overloaded_exit (gpc s) <= 1)
        by (destruct (gpc s) as [| | |[|]]; cbn; lia).
      unfold is_u32, MAX_READ_REQS_QUEUED in *. lia. }
    rewrite U. worker_case Hw H Hq0.
  - (* a large-block read *)
    apply large_block_read_round_frame in H0. destruct H0 as (F1 & F2 & F3).
    rewrite (total_queued_same c _ _ F3), F2.
    repeat split; try assumption.
    intros M. destruct F1 as [F1|F1]; rewrite F1; auto.
  - (* a large-block write *)
    apply large_block_write_round_frame in H0. destruct H0 as (F1 & F2 & F3).
    rewrite (total_queued_same c _ _ F3), F2.
    repeat split; try assumption.
    intros M. destruct F1 as [F1|F1]; rewrite F1; auto.
  - (* main clears g_running *)
    rewrite (total_queued_same c (shared s) (set_running (shared s) false))
      by reflexivity.
    cbn [set_running g_read_reqs_queued g_running].
    repeat split; try assumption.
    + intros [M|M]; discriminate.
    + intros M; discriminate.
  - (* main has joined the generator *)
    repeat split; try assumption.
    + intros _. apply Hr. congruence.
    + intros _. exists b. assumption.
    + intros M; discriminate.
  - (* main has joined the workers *)
    repeat split; try assumption.
    + intros _. apply Hr. congruence.
    + intros _. apply Hg. left. assumption.
    + intros _. assumption.
Qed.

Lemma counter_inv_steps w s : steps c devs (init c w) s -> counter_inv c s.
Proof.
  intros H. remember (init c w) as s0 eqn:E. induction H; subst.
  - apply counter_inv_init.
  - eapply counter_inv_step; [|eassumption]. auto.
Qed.

End Invariant.

(** ** Where the pushes of the generator go *)

Lemma loop_pushing_round c devs i ins w count w1 w2 qi r x :
  g_running (g_before i w) = true ->
  too_many_queued (g_before i w) = (w1, false) ->
  enqueue_readreq c devs w1 count i = Ret (w2, qi, r) ->
  pace c (u64 (count + 1)) i = Ret x ->
  add_readreqs_loop c devs (i :: ins) w count
  = gen_cons (qi, r) (add_readreqs_loop c devs ins w2 (u64 (count + 1))).
Proof.
  intros Hr Ht He Hp. cbn [add_readreqs_loop].
  rewrite Hr, Ht, He, Hp. reflexivity.
Qed.

Lemma loop_round_reaches_queue c devs : forall ins w count j p,
  nth_error (pushed (add_readreqs_loop c devs ins w count)) j = Some p ->
  exists i, nth_error ins j = Some i /\
    req_queue (final (add_readreqs_loop c devs (firstn (S j) ins) w count)) (fst p)
    = req_queue (g_before i
                   (final (add_readreqs_loop c devs (firstn j ins) w count)))
                (fst p) ++ [snd p] /\
    forall q', q' <> fst p ->
      req_queue (final (add_readreqs_loop c devs (firstn (S j) ins) w count)) q'
      = req_queue (g_before i
                     (final (add_readreqs_loop c devs (firstn j ins) w count))) q'.
Proof.
  induction ins as [|i ins IH]; intros w count j p H.
  - destruct j; discriminate.
  - cbn [add_readreqs_loop] in H.
    destruct (g_running (g_before i w)) eqn:Hr; cbn [negb] in H;
      [|destruct j; discriminate].
    destruct (too_many_queued (g_before i w)) as [w1 over] eqn:Ht.
    destruct over; [destruct j; discriminate|].
    destruct (enqueue_readreq c devs w1 count i) as [[[w2 qi] r]|] eqn:He;
      [|destruct j; discriminate].
    pose proof (enqueue_readreq_inv _ _ _ _ _ _ _ _ He) as (_ & _ & Ew & _).
    pose proof (too_many_queued_inv _ _ _ Ht) as (_ & _ & Eq & _).
    assert (Hone : final (add_readreqs_loop c devs [i] w count) = w2).
    { cbn [add_readreqs_loop]. rewrite Hr, Ht, He. cbn [negb].
      destruct (pace c (u64 (count + 1)) i); reflexivity. }
    destruct j as [|j].
    + assert (Hp : p = (qi, r)).
      { destruct (pace c (u64 (count + 1)) i); cbn in H; congruence. }
      subst p. exists i. split; [reflexivity|].
      cbn [firstn fst snd]. rewrite Hone.
      cbn [add_readreqs_loop gen_stop final].
      rewrite Ew. unfold cf_queue_push_req. cbn [req_queue set_req_queue].
      rewrite Eq. split.
      * rewrite Z.eqb_refl. reflexivity.
      * intros q' Hq'. rewrite (proj2 (Z.eqb_neq _ _) Hq'). reflexivity.
    + destruct (pace c (u64 (count + 1)) i) as [x|] eqn:Hp;
        cbn [pushed gen_cons gen_stop nth_error] in H;
        [|destruct j; discriminate].
      destruct (IH w2 (u64 (count + 1)) j p H) as (i' & Hi' & Hq).
      exists i'. split; [exact Hi'|].
      change (firstn (S (S j)) (i :: ins)) with (i :: firstn (S j) ins).
      change (firstn (S j) (i :: ins)) with (i :: firstn j ins).
      rewrite !(loop_pushing_round c devs i _ w count w1 w2 qi r x Hr Ht He Hp).
      exact Hq.
Qed.

Lemma firstn_snoc {A : Type} (l : list A) : forall k x,
  nth_error l k = Some x -> firstn (S k) l = firstn k l ++ [x].
Proof.
  induction l as [|a l IH]; intros k x H; [destruct k; discriminate|].
  destruct k as [|k].
  - cbn in H. inversion H. reflexivity.
  - cbn [nth_error] in H. change (firstn (S (S k)) (a :: l))
      with (a :: firstn (S k) l). rewrite (IH k x H). reflexivity.
Qed.

Lemma nth_error_skipn_plus {A : Type} (l : list A) : forall from k,
  nth_error (skipn from l) k = nth_error l (from + k).
Proof.
  induction l as [|a l IH]; intros from k.
  - destruct from; destruct k; reflexivity.
  - destruct from; [reflexivity|]. cbn [skipn Nat.add nth_error]. apply IH.
Qed.

Lemma window_snoc {A : Type} (l : list A) from len x :
  nth_error l (from + len) = Some x ->
  window from (S len) l = window from len l ++ [x].
Proof.
  intros H. unfold window. apply firstn_snoc.
  rewrite nth_error_skipn_plus. exact H.
Qed.

Lemma undisturbed_window_reaches_queue c devs ins w count q from : forall len,
  (from + len <= length (pushed (add_readreqs_loop c devs ins w count)))%nat ->
  Forall undisturbed_gen (window from len ins) ->
  req_queue (final (add_readreqs_loop c devs (firstn (from + len) ins) w count)) q
  = req_queue (final (add_readreqs_loop c devs (firstn from ins) w count)) q
    ++ map snd (filter (fun p => fst p =? q)
                  (window from len (pushed (add_readreqs_loop c devs ins w count)))).
Proof.
  induction len as [|len IH]; intros Hl Hu.
  - rewrite Nat.add_0_r. unfold window. cbn. rewrite app_nil_r. reflexivity.
  - destruct (nth_error (pushed (add_readreqs_loop c devs ins w count)) (from + len))
      as [p|] eqn:Hp.
    2:{ apply nth_error_None in Hp. lia. }
    destruct (loop_round_reaches_queue c devs ins w count _ p Hp)
      as (i & Hi & Hsame & Hother).
    rewrite (window_snoc _ _ _ _ Hi) in Hu.
    apply Forall_app in Hu. destruct Hu as [Hu Hi'].
    inversion Hi' as [|? ? Hund _]; subst.
    rewrite Hund in Hsame, Hother.
    rewrite (window_snoc _ _ _ _ Hp), filter_app, map_app, app_assoc.
    rewrite <- IH by (lia || assumption).
    replace (from + S len)%nat with (S (from + len)) by lia.
    cbn [filter]. destruct (fst p =? q) eqn:E.
    + apply Z.eqb_eq in E. subst q. exact Hsame.
    + cbn [map]. rewrite app_nil_r. apply Hother.
      intros ->. rewrite Z.eqb_refl in E. discriminate.
Qed.

(** * The claims *)

Ltac pick_prefix :=
  first [ exists (@nil Z); split; [reflexivity|]
        | eexists [_]; split; [reflexivity|]
        | eexists [_; _]; split; [reflexivity|]
        | eexists [_; _; _]; split; [reflexivity|] ].

(** Claim C10. For 64-bit timestamps safe_delta_ns returns stop - start
    when start <= stop and 0 otherwise, that is max(0, stop - start) with no
    wrap-around; and every value that read_and_report,
    read_and_report_large_block and write_and_report_large_block insert into
    a histogram is such a difference between the stop time of the operation
    and one of its start times. *)
Theorem safe_delta_ns_never_wraps
    (start stop : Z) (c : act_cfg) (w : world) (r : readreq) (d : device)
    (buf raw r1 r2 lb_start0 : Z) (io : io_env) (h : hist_id) :
  is_u64 start -> is_u64 stop ->
  is_u64 raw -> is_u64 (start_time r) -> is_u64 lb_start0 ->
  is_u64 (io_stop_ns io) ->
  safe_delta_ns start stop = Z.max 0 (stop - start) /\
  (start <= stop -> safe_delta_ns start stop = stop - start) /\
  (stop < start -> safe_delta_ns start stop = 0) /\
  (exists vs,
     histogram (read_and_report w r buf raw io) h = vs ++ histogram w h /\
     Forall (fun v => v = Z.max 0 (io_stop_ns io - raw) \/
                      v = Z.max 0 (io_stop_ns io - start_time r)) vs) /\
  (forall w', read_and_report_large_block c w d buf r1 r2 lb_start0 io = Ret w' ->
     exists vs,
       histogram w' h = vs ++ histogram w h /\
       Forall (fun v => v = Z.max 0 (io_stop_ns io - lb_start0)) vs) /\
  (forall w', write_and_report_large_block c w d buf r1 r2 lb_start0 io = Ret w' ->
     exists vs,
       histogram w' h = vs ++ histogram w h /\
       Forall (fun v => v = Z.max 0 (io_stop_ns io - lb_start0)) vs).
Proof.
  intros Hs Ht Hraw Henq Hlb Hstop.
  pose proof (safe_delta_ns_max start stop Hs Ht) as M.
  split; [exact M|]. split; [intros; lia|]. split; [intros; lia|].
  assert (Stop : forall f,
            (f = read_from_device \/ f = write_to_device) ->
            forall w0 d0 off len,
            snd (f w0 d0 off len buf io) = IO_FAILED \/
            snd (f w0 d0 off len buf io) = io_stop_ns io).
  { intros f [-> | ->] w0 d0 off len.
    - open_engine read_from_device w0 d0 io; cbn; auto.
    - open_engine write_to_device w0 d0 io; cbn; auto. }
  split; [|split].
  - unfold read_and_report.
    pose proof (read_from_device_frame w (p_device r) (offset r) (size r) buf io) as F.
    pose proof (Stop _ (or_introl eq_refl) w (p_device r) (offset r) (size r)) as S.
    destruct (read_from_device w (p_device r) (offset r) (size r) buf io) as [w1 t].
    cbn [fst snd] in *. destruct F as (_ & _ & _ & Fh).
    destruct (t =? IO_FAILED) eqn:E; cbn [negb].
    + exists []. rewrite Fh. split; [reflexivity|constructor].
    + apply Z.eqb_neq in E. destruct S as [S|S]; [contradiction|]. subst t.
      rewrite !safe_delta_ns_max by assumption.
      cbn [histogram histogram_insert_data_point]. rewrite Fh.
      destruct (hist_id_eqb h RawReads), (hist_id_eqb h Reads),
        (hist_id_eqb h (DeviceRawReads (n (p_device r))));
        pick_prefix; repeat apply Forall_cons; try apply Forall_nil; auto.
  - intros w'. unfold read_and_report_large_block.
    destruct (random_large_block_offset c d r1 r2) as [off|]; [|discriminate].
    cbn [bind].
    pose proof (read_from_device_frame w d off (large_block_ops_bytes c) buf io) as F.
    pose proof (Stop _ (or_introl eq_refl) w d off (large_block_ops_bytes c)) as S.
    destruct (read_from_device w d off (large_block_ops_bytes c) buf io) as [w1 t].
    cbn [fst snd] in *. destruct F as (_ & _ & _ & Fh).
    destruct (t =? IO_FAILED) eqn:E; cbn [negb]; intros H; inversion H; subst.
    + exists []. rewrite Fh. split; [reflexivity|constructor].
    + apply Z.eqb_neq in E. destruct S as [S|S]; [contradiction|]. subst t.
      rewrite !safe_delta_ns_max by assumption.
      cbn [histogram histogram_insert_data_point]. rewrite Fh.
      destruct (hist_id_eqb h LargeBlockReads);
        pick_prefix; repeat apply Forall_cons; try apply Forall_nil; auto.
  - intros w'. unfold write_and_report_large_block.
    destruct (random_large_block_offset c d r1 r2) as [off|]; [|discriminate].
    cbn [bind].
    set (w0 := emit w (EvRandFill buf (large_block_ops_bytes c))).
    pose proof (write_to_device_frame w0 d off (large_block_ops_bytes c) buf io) as F.
    pose proof (Stop _ (or_intror eq_refl) w0 d off (large_block_ops_bytes c)) as S.
    destruct (write_to_device w0 d off (large_block_ops_bytes c) buf io) as [w1 t].
    cbn [fst snd] in *. destruct F as (_ & _ & _ & Fh).
    destruct (t =? IO_FAILED) eqn:E; cbn [negb]; intros H; inversion H; subst.
    + exists []. rewrite Fh. split; [reflexivity|constructor].
    + apply Z.eqb_neq in E. destruct S as [S|S]; [contradiction|]. subst t.
      rewrite !safe_delta_ns_max by assumption.
      cbn [histogram histogram_insert_data_point]. rewrite Fh.
      destruct (hist_id_eqb h LargeBlockWrites);
        pick_prefix; repeat apply Forall_cons; try apply Forall_nil; auto.
Qed.


Lemma safe_delta_ns_never_wraps_witness :
  safe_delta_ns 100 900 = Z.max 0 (900 - 100).
Proof.
  exact (proj1 (safe_delta_ns_never_wraps 100 900 cfg_default blank_world
                  req_example (blank_device 0) 0 100 0 0 100 (io_good 1536)
                  RawReads
                  ltac:(unfold is_u64; lia) ltac:(unfold is_u64; lia)
                  ltac:(unfold is_u64; lia) ltac:(unfold is_u64; cbn; lia)
                  ltac:(unfold is_u64; lia) ltac:(unfold is_u64; cbn; lia))).
Defined.

(** One operation at an offset below 2^64 - 1, the value (uint64_t)-1 that a
    failed lseek compares as. *)
Lemma io_error_handling_in_range
    (c : act_cfg) (w : world) (d : device) (off len buf : Z) (io : io_env)
    (w1 : world) (fd : Z) (enq raw r1 r2 start : Z) :
  0 <= off < 2 ^ 64 - 1 ->
  fd_get w d (io_open_ret io) = (w1, fd) -> fd <> -1 ->
  let r := {| p_device := d; offset := off; size := len; start_time := enq |} in
  let R := read_from_device w d off len buf io in
  let W := write_to_device w d off len buf io in
  (io_seek_ok io = false \/ io_xfer_ret io <> len ->
     (snd R = IO_FAILED /\ fd_queue (fst R) = fd_queue w1 /\
      (exists es, trace (fst R) = trace w1 ++ es /\ In (EvClose fd) es) /\
      g_running (fst R) = g_running w /\ histogram (fst R) = histogram w) /\
     (snd W = IO_FAILED /\ fd_queue (fst W) = fd_queue w1 /\
      (exists es, trace (fst W) = trace w1 ++ es /\ In (EvClose fd) es) /\
      g_running (fst W) = g_running w /\ histogram (fst W) = histogram w) /\
     (histogram (read_and_report w r buf raw io) = histogram w /\
      g_running (read_and_report w r buf raw io) = g_running w) /\
     (random_large_block_offset c d r1 r2 = Ret off ->
      large_block_ops_bytes c = len ->
      (exists w', read_and_report_large_block c w d buf r1 r2 start io = Ret w' /\
                  histogram w' = histogram w /\ g_running w' = g_running w) /\
      (exists w', write_and_report_large_block c w d buf r1 r2 start io = Ret w' /\
                  histogram w' = histogram w /\ g_running w' = g_running w))) /\
  (io_seek_ok io = true /\ io_xfer_ret io = len ->
     (snd R = io_stop_ns io /\
      fd_queue (fst R) (n d) = fd_queue w1 (n d) ++ [fd] /\
      (exists es, trace (fst R) = trace w1 ++ es /\ ~ In (EvClose fd) es)) /\
     (snd W = io_stop_ns io /\
      fd_queue (fst W) (n d) = fd_queue w1 (n d) ++ [fd] /\
      (exists es, trace (fst W) = trace w1 ++ es /\ ~ In (EvClose fd) es))).
Proof.
  intros Hoff Hget Hfd r R W.
  pose proof (fd_get_frame w d (io_open_ret io)) as F.
  rewrite Hget in F. cbn [fst] in F. destruct F as (Fr & _ & _ & Fh).
  split.
  - intros Hf.
    destruct (read_from_device_failure w d off len buf io w1 fd Hoff Hget Hfd Hf)
      as (es & ER & Ein).
    destruct (write_to_device_failure w d off len buf io w1 fd Hoff Hget Hfd Hf)
      as (es' & EW & Ein').
    split; [|split; [|split]].
    + subst R. rewrite ER. cbn. repeat split; eauto.
    + subst W. rewrite EW. cbn. repeat split; eauto.
    + unfold read_and_report. subst r. cbn [p_device offset size start_time].
      rewrite ER. rewrite Z.eqb_refl. cbn. auto.
    + intros Eo El. split.
      * unfold read_and_report_large_block. rewrite Eo, El. cbn [bind].
        rewrite ER. rewrite Z.eqb_refl. cbn [negb].
        eexists. split; [reflexivity|]. cbn. auto.
      * unfold write_and_report_large_block. rewrite Eo, El. cbn [bind].
        set (w0 := emit w (EvRandFill buf len)).
        assert (Hget0 : fd_get w0 d (io_open_ret io)
                        = (fst (fd_get w0 d (io_open_ret io)), fd)).
        { rewrite (surjective_pairing (fd_get w0 d (io_open_ret io))) at 1.
          f_equal. unfold w0. rewrite fd_get_emit, Hget. reflexivity. }
        destruct (write_to_device_failure w0 d off len buf io _ fd Hoff Hget0 Hfd Hf)
          as (es0 & EW0 & _).
        rewrite EW0. rewrite Z.eqb_refl. cbn [negb].
        pose proof (fd_get_frame w0 d (io_open_ret io)) as F0.
        destruct F0 as (F0r & _ & _ & F0h).
        eexists. split; [reflexivity|]. cbn. auto.
  - intros [Es Ex].
    pose proof (read_from_device_success w d off len buf io w1 fd Hoff Hget Hfd Es Ex)
      as ER.
    pose proof (write_to_device_success w d off len buf io w1 fd Hoff Hget Hfd Es Ex)
      as EW.
    split.
    + subst R. rewrite ER. cbn. rewrite Z.eqb_refl.
      repeat split.
      exists [EvSeek fd off; EvRead fd buf len]. rewrite <- app_assoc.
      split; [reflexivity|]. cbn. intros [H|[H|[]]]; discriminate.
    + subst W. rewrite EW. cbn. rewrite Z.eqb_refl.
      repeat split.
      exists [EvSeek fd off; EvWrite fd buf len]. rewrite <- app_assoc.
      split; [reflexivity|]. cbn. intros [H|[H|[]]]; discriminate.
Qed.

(** ** Offsets on a probed device *)

Lemma probed_large_block_offset c e d r1 r2 :
  wf_cfg c -> wf_env e -> probed c e d ->
  exists off,
    random_large_block_offset c d r1 r2 = Ret off /\
    off = rand_48 r1 r2 mod num_large_blocks d * large_block_ops_bytes c /\
    off mod large_block_ops_bytes c = 0 /\
    0 <= off /\ off + large_block_ops_bytes c <= device_bytes e.
Proof.
  intros Hc He [Hb Hn Hz _ _ _].
  destruct Hc as (_ & _ & _ & _ & _ & _ & Hl & _).
  unfold wf_env, is_u64 in He. unfold is_u32 in Hl.
  set (l := large_block_ops_bytes c) in *.
  set (k := rand_48 r1 r2 mod num_large_blocks d).
  assert (Hl' : 0 < l) by lia.
  assert (Hnpos : 0 < num_large_blocks d).
  { rewrite Hn in *. pose proof (Z.div_pos (device_bytes e) l ltac:(lia) Hl'). lia. }
  pose proof (Z.mod_pos_bound (rand_48 r1 r2) (num_large_blocks d) Hnpos) as Bk.
  fold k in Bk.
  pose proof (Z.mul_div_le (device_bytes e) l Hl') as Bd. rewrite <- Hn in Bd.
  assert (Hsmall : u64 (k * l) = k * l).
  { apply u64_small. unfold is_u64. nia. }
  exists (k * l). unfold random_large_block_offset, umod.
  rewrite (proj2 (Z.eqb_neq _ _) Hz). cbn [bind]. fold k. fold l.
  rewrite Hsmall. repeat split; try nia.
  apply Z.mod_mul. lia.
Qed.

Lemma probed_read_offset_seekable c e d r1 r2 off :
  probed c e d -> random_read_offset d r1 r2 = Ret off ->
  0 <= off < 2 ^ 64 - 1.
Proof.
  intros [_ _ _ Hm _ _]. unfold random_read_offset, umod.
  destruct (num_read_offsets d =? 0); [discriminate|]. cbn [bind].
  intros H. inversion H; subst; clear H.
  set (k := rand_48 r1 r2 mod num_read_offsets d).
  pose proof (u64_range (k * min_op_bytes d)) as R. unfold is_u64 in R.
  assert (E : u64 (k * min_op_bytes d) mod 2 = 0).
  { unfold u64. rewrite (Z.mod_mod_divide _ (2 ^ 64) 2) by (exists (2 ^ 63); reflexivity).
    simpl in Hm. destruct Hm as [<- | [<- | [<- | [<- | []]]]].
    - replace (k * 512) with (k * 256 * 2) by lia. apply Z.mod_mul. lia.
    - replace (k * 1024) with (k * 512 * 2) by lia. apply Z.mod_mul. lia.
    - replace (k * 2048) with (k * 1024 * 2) by lia. apply Z.mod_mul. lia.
    - replace (k * 4096) with (k * 2048 * 2) by lia. apply Z.mod_mul. lia. }
  assert (u64 (k * min_op_bytes d) <> 2 ^ 64 - 1).
  { intros C. rewrite C in E. discriminate E. }
  lia.
Qed.


Lemma probed_large_block_offset_seekable c e d r1 r2 off :
  wf_cfg c -> wf_env e -> probed c e d ->
  random_large_block_offset c d r1 r2 = Ret off ->
  0 <= off < 2 ^ 64 - 1.
Proof.
  intros Hc He Hp Eo.
  destruct (probed_large_block_offset c e d r1 r2 Hc He Hp)
    as (off' & Eo' & _ & _ & H0 & Hb).
  rewrite Eo in Eo'. inversion Eo'; subst off'.
  pose proof (probed_block_bytes c e d Hp) as Hl.
  destruct Hc as (_ & _ & _ & _ & _ & _ & Hl' & _).
  unfold wf_env, is_u64 in He. unfold is_u32 in Hl'. lia.
Qed.

(** Claim C4. An operation of read_from_device or write_to_device on a
    device that passed setup, at an offset its callers compute (that of a
    transaction read or that of a large-block operation), having borrowed
    descriptor [fd]: if the seek or the transfer fails, [fd] is closed and
    does not go back to the pool, the call returns (uint64_t)-1, the callers
    insert nothing into any histogram and g_running keeps its value; if both
    succeed, [fd] goes back to the pool, it is not closed, and the call
    returns the stop time. *)
Theorem io_error_handling
    (c : act_cfg) (e : dev_env) (ws : world) (d0 : device) (ws' : world)
    (w : world) (d : device) (off len buf : Z) (io : io_env)
    (w1 : world) (fd : Z) (enq raw r1 r2 start : Z) :
  wf_cfg c -> wf_env e ->
  discover_num_blocks c e ws d0 = Ret (ws', d, true) ->
  random_read_offset d r1 r2 = Ret off \/
  random_large_block_offset c d r1 r2 = Ret off ->
  fd_get w d (io_open_ret io) = (w1, fd) -> fd <> -1 ->
  let r := {| p_device := d; offset := off; size := len; start_time := enq |} in
  let R := read_from_device w d off len buf io in
  let W := write_to_device w d off len buf io in
  (io_seek_ok io = false \/ io_xfer_ret io <> len ->
     (snd R = IO_FAILED /\ fd_queue (fst R) = fd_queue w1 /\
      (exists es, trace (fst R) = trace w1 ++ es /\ In (EvClose fd) es) /\
      g_running (fst R) = g_running w /\ histogram (fst R) = histogram w) /\
     (snd W = IO_FAILED /\ fd_queue (fst W) = fd_queue w1 /\
      (exists es, trace (fst W) = trace w1 ++ es /\ In (EvClose fd) es) /\
      g_running (fst W) = g_running w /\ histogram (fst W) = histogram w) /\
     (histogram (read_and_report w r buf raw io) = histogram w /\
      g_running (read_and_report w r buf raw io) = g_running w) /\
     (random_large_block_offset c d r1 r2 = Ret off ->
      large_block_ops_bytes c = len ->
      (exists w', read_and_report_large_block c w d buf r1 r2 start io = Ret w' /\
                  histogram w' = histogram w /\ g_running w' = g_running w) /\
      (exists w', write_and_report_large_block c w d buf r1 r2 start io = Ret w' /\
                  histogram w' = histogram w /\ g_running w' = g_running w))) /\
  (io_seek_ok io = true /\ io_xfer_ret io = len ->
     (snd R = io_stop_ns io /\
      fd_queue (fst R) (n d) = fd_queue w1 (n d) ++ [fd] /\
      (exists es, trace (fst R) = trace w1 ++ es /\ ~ In (EvClose fd) es)) /\
     (snd W = io_stop_ns io /\
      fd_queue (fst W) (n d) = fd_queue w1 (n d) ++ [fd] /\
      (exists es, trace (fst W) = trace w1 ++ es /\ ~ In (EvClose fd) es))).
Proof.
  intros Hc He Hd Ho Hget Hfd.
  apply discover_num_blocks_true in Hd. destruct Hd as [Hp _].
  assert (Hoff : 0 <= off < 2 ^ 64 - 1).
  { destruct Ho as [Ho|Ho].
    - exact (probed_read_offset_seekable c e d r1 r2 off Hp Ho).
    - exact (probed_large_block_offset_seekable c e d r1 r2 off Hc He Hp Ho). }
  exact (io_error_handling_in_range c w d off len buf io w1 fd enq raw r1 r2
           start Hoff Hget Hfd).
Qed.

Lemma io_error_handling_witness :
  snd (read_from_device blank_world dev_1g_512 4608 1536 8192 io_bad_seek)
  = IO_FAILED.
Proof.
  refine (proj1 (proj1 (proj1
    (io_error_handling cfg_default (disk (2 ^ 30) 512) blank_world
       (blank_device 0) (probed_world cfg_default (disk (2 ^ 30) 512))
       blank_world dev_1g_512 4608 1536 8192 io_bad_seek
       (emit blank_world (EvOpen 0 3)) 3 0 0 0 9 0 _ _ _ _ _ _) _))).
  - unfold wf_cfg, is_u32. cbn. lia.
  - unfold wf_env, is_u64. cbn. lia.
  - reflexivity.
  - left. reflexivity.
  - reflexivity.
  - discriminate.
  - left. reflexivity.
Defined.

Lemma read_and_report_large_block_trace c w d buf r1 r2 start io off w' :
  random_large_block_offset c d r1 r2 = Ret off ->
  read_and_report_large_block c w d buf r1 r2 start io = Ret w' ->
  exists es, trace w' = trace w ++ es /\
             Forall (about off (large_block_ops_bytes c) buf) es.
Proof.
  intros Eo. unfold read_and_report_large_block. rewrite Eo. cbn [bind].
  pose proof (read_from_device_trace w d off (large_block_ops_bytes c) buf io) as T.
  destruct (read_from_device w d off (large_block_ops_bytes c) buf io) as [w1 t].
  cbn [fst] in T.
  destruct (negb (t =? IO_FAILED)); intros H; inversion H; subst; exact T.
Qed.

Lemma write_and_report_large_block_trace c w d buf r1 r2 start io off w' :
  random_large_block_offset c d r1 r2 = Ret off ->
  write_and_report_large_block c w d buf r1 r2 start io = Ret w' ->
  exists es, trace w' = trace w ++ es /\
             Forall (about off (large_block_ops_bytes c) buf) es.
Proof.
  intros Eo. unfold write_and_report_large_block. rewrite Eo. cbn [bind].
  set (l := large_block_ops_bytes c).
  pose proof (write_to_device_trace (emit w (EvRandFill buf l)) d off l buf io) as T.
  destruct (write_to_device (emit w (EvRandFill buf l)) d off l buf io) as [w1 t].
  cbn [fst] in T. destruct T as (es & T & A).
  assert (G : exists es0, trace w1 = trace w ++ es0 /\ Forall (about off l buf) es0).
  { exists (EvRandFill buf l :: es). split.
    - rewrite T. cbn [trace emit]. rewrite <- app_assoc. reflexivity.
    - constructor; [cbn; auto|exact A]. }
  destruct (negb (t =? IO_FAILED)); intros H; inversion H; subst; exact G.
Qed.

(** Claim C8. On a device that passed setup, every large-block read and
    write goes to the offset (rand_48() mod num_large_blocks) *
    large_block_bytes, which is a multiple of large_block_bytes and leaves
    room for a whole large block before the end of the device. *)
Theorem large_block_offsets_in_bounds
    (c : act_cfg) (e : dev_env) (w0 : world) (d0 : device) (w1 : world)
    (d : device) (w : world) (buf r1 r2 start : Z) (io : io_env) :
  wf_cfg c -> wf_env e ->
  discover_num_blocks c e w0 d0 = Ret (w1, d, true) ->
  exists off,
    random_large_block_offset c d r1 r2 = Ret off /\
    off = rand_48 r1 r2 mod num_large_blocks d * large_block_ops_bytes c /\
    off mod large_block_ops_bytes c = 0 /\
    off + large_block_ops_bytes c <= device_bytes e /\
    (exists w' es,
       read_and_report_large_block c w d buf r1 r2 start io = Ret w' /\
       trace w' = trace w ++ es /\
       Forall (about off (large_block_ops_bytes c) buf) es) /\
    (exists w' es,
       write_and_report_large_block c w d buf r1 r2 start io = Ret w' /\
       trace w' = trace w ++ es /\
       Forall (about off (large_block_ops_bytes c) buf) es).
Proof.
  intros Hc He Hd. apply discover_num_blocks_true in Hd. destruct Hd as [Hp _].
  destruct (probed_large_block_offset c e d r1 r2 Hc He Hp)
    as (off & Eo & Ef & Em & _ & Eb).
  exists off. repeat split; try assumption.
  - assert (X : exists w', read_and_report_large_block c w d buf r1 r2 start io = Ret w').
    { unfold read_and_report_large_block. rewrite Eo. cbn [bind].
      destruct (read_from_device w d off (large_block_ops_bytes c) buf io) as [wa t].
      destruct (negb (t =? IO_FAILED)); eauto. }
    destruct X as [w' X]. exists w'.
    destruct (read_and_report_large_block_trace _ _ _ _ _ _ _ _ _ _ Eo X) as (es & T).
    exists es. tauto.
  - assert (X : exists w', write_and_report_large_block c w d buf r1 r2 start io = Ret w').
    { unfold write_and_report_large_block. rewrite Eo. cbn [bind].
      destruct (write_to_device _ d off (large_block_ops_bytes c) buf io) as [wa t].
      destruct (negb (t =? IO_FAILED)); eauto. }
    destruct X as [w' X]. exists w'.
    destruct (write_and_report_large_block_trace _ _ _ _ _ _ _ _ _ _ Eo X) as (es & T).
    exists es. tauto.
Qed.

Lemma large_block_offsets_in_bounds_witness :
  exists off,
    random_large_block_offset cfg_default
      (probed_device cfg_default (disk (2 ^ 30) 4096)) 5 7 = Ret off /\
    off mod 131072 = 0 /\ off + 131072 <= 2 ^ 30.
Proof.
  destruct (large_block_offsets_in_bounds cfg_default (disk (2 ^ 30) 4096)
              blank_world (blank_device 0)
              (probed_world cfg_default (disk (2 ^ 30) 4096))
              (probed_device cfg_default (disk (2 ^ 30) 4096))
              blank_world 0 5 7 0 (io_good 131072))
    as (off & E1 & _ & E2 & E3 & _).
  - unfold wf_cfg, is_u32. cbn. lia.
  - unfold wf_env, is_u64. cbn. lia.
  - reflexivity.
  - exists off. auto.
Defined.

(** ** Buffers *)










(** ** Requests on a probed device *)






(** Claim C2, as the code has it. On a device that passed setup,
    num_min_op_blocks = (num_large_blocks * large_block_bytes) / min_op_bytes;
    as long as record_bytes + min_op_bytes - 1 fits 32 bits,
    read_req_blocks = ceil(record_bytes / min_op_bytes), read_bytes =
    read_req_blocks * min_op_bytes and num_read_offsets is
    num_min_op_blocks - read_req_blocks + 1 modulo 2^64, hence that number
    itself when read_req_blocks <= num_min_op_blocks + 1; and when
    record_bytes is a multiple of min_op_bytes, read_bytes = record_bytes. *)
Theorem geometry_formulas
    (c : act_cfg) (e : dev_env) (w0 : world) (d0 : device) (w1 : world)
    (d : device) :
  wf_cfg c -> wf_env e ->
  discover_num_blocks c e w0 d0 = Ret (w1, d, true) ->
  num_min_op_blocks c d = Ret (spec_num_min_op_blocks c d) /\
  (record_bytes c + min_op_bytes d - 1 < 2 ^ 32 ->
     read_req_min_op_blocks c d = Ret (spec_read_req_blocks c d) /\
     read_bytes d = spec_read_bytes c d /\
     num_read_offsets d = u64 (spec_num_read_offsets c d) /\
     (spec_read_req_blocks c d <= spec_num_min_op_blocks c d + 1 ->
      num_read_offsets d = spec_num_read_offsets c d)) /\
  (record_bytes c mod min_op_bytes d = 0 -> read_bytes d = record_bytes c).
Proof.
  intros Hc He Hd. apply discover_num_blocks_true in Hd.
  destruct Hd as [[Hb Hn Hz Hm Ho Hr] _].
  destruct Hc as (_ & _ & _ & _ & _ & Hrec & Hl & _).
  unfold wf_env, is_u64 in He. unfold is_u32 in Hl, Hrec.
  unfold spec_num_read_offsets, spec_read_bytes, spec_read_req_blocks,
    spec_num_min_op_blocks, ceil_div, num_min_op_blocks, read_req_min_op_blocks,
    udiv.
  set (l := large_block_ops_bytes c) in *.
  set (m := min_op_bytes d) in *.
  set (nb := num_large_blocks d) in *.
  assert (Hm' : 512 <= m <= 4096) by (simpl in Hm; lia).
  assert (Hl' : 0 < l) by lia.
  pose proof (Z.mul_div_le (device_bytes e) l Hl') as Bd.
  rewrite <- Hn, Z.mul_comm in Bd.
  assert (Hnb : 0 <= nb) by (rewrite Hn; apply Z.div_pos; lia).
  assert (Hnl : u64 (nb * l) = nb * l) by (apply u64_small; unfold is_u64; nia).
  assert (Mz : (m =? 0) = false) by (apply Z.eqb_neq; lia).
  rewrite Mz, Hnl.
  assert (Fits : record_bytes c + m - 1 < 2 ^ 32 ->
                 u32 (record_bytes c + m - 1) = record_bytes c + m - 1).
  { intros F. apply u32_small. unfold is_u32. lia. }
  assert (Rb : record_bytes c + m - 1 < 2 ^ 32 ->
               u32 ((record_bytes c + m - 1) / m * m)
               = (record_bytes c + m - 1) / m * m).
  { intros F. apply u32_small. unfold is_u32.
    pose proof (Z.mul_div_le (record_bytes c + m - 1) m ltac:(lia)).
    pose proof (Z.div_pos (record_bytes c + m - 1) m ltac:(lia) ltac:(lia)).
    nia. }
  split; [reflexivity|]. split.
  - intros F. rewrite Hr, Ho, Hnl, (Fits F), (Rb F).
    repeat split. intros Hle. apply u64_small. unfold is_u64.
    pose proof (Z.mul_div_le (nb * l) m ltac:(lia)).
    pose proof (Z.div_pos (nb * l) m ltac:(nia) ltac:(lia)).
    pose proof (Z.div_pos (record_bytes c + m - 1) m ltac:(lia) ltac:(lia)).
    set (A := nb * l / m) in *. set (B := (record_bytes c + m - 1) / m) in *.
    assert (A * 512 <= A * m) by nia.
    lia.
  - intros Hmul.
    pose proof (Z.div_mod (record_bytes c) m ltac:(lia)) as D.
    rewrite Hmul, Z.add_0_r in D.
    set (q := record_bytes c / m) in *.
    assert (Hq : 0 <= q) by (apply Z.div_pos; lia).
    assert (Hdiv : (m | 2 ^ 32)).
    { simpl in Hm.
      destruct Hm as [<- | [<- | [<- | [<- | []]]]];
        [exists 8388608 | exists 4194304 | exists 2097152 | exists 1048576];
        reflexivity. }
    destruct Hdiv as [Q HQ].
    assert (HqQ : q < Q) by (apply (Z.mul_lt_mono_pos_r m); lia).
    assert (F : record_bytes c + m - 1 < 2 ^ 32) by nia.
    rewrite Hr, (Fits F).
    assert (E : (record_bytes c + m - 1) / m = q).
    { apply div_by_bounds. nia. }
    rewrite E. rewrite u32_small by (unfold is_u32; nia). lia.
Qed.

Lemma geometry_formulas_witness :
  num_min_op_blocks cfg_default dev_1g_512
  = Ret (spec_num_min_op_blocks cfg_default dev_1g_512).
Proof.
  refine (proj1 (geometry_formulas cfg_default (disk (2 ^ 30) 512) blank_world
                   (blank_device 0)
                   (probed_world cfg_default (disk (2 ^ 30) 512)) dev_1g_512
                   _ _ _)).
  - unfold wf_cfg, is_u32. cbn. lia.
  - unfold wf_env, is_u64. cbn. lia.
  - reflexivity.
Defined.

(** Claim C2 as stated fails: with records of 1 MiB on a device of 128 KiB
    the formula gives 256 - 2048 + 1 = -1791 read offsets, and the device
    holds 2^64 - 1791; with records of 2^32 - 1 bytes the 32-bit sum
    record_bytes + min_op_bytes - 1 wraps to 510, read_req_blocks is 0
    instead of 8388608 and read_bytes is 0. *)
Lemma num_read_offsets_wraps :
  geometry_of (discover_num_blocks cfg_big_records (disk 131072 512)
                 blank_world (blank_device 0)) = Some (dev_128k_512, true) /\
  num_read_offsets dev_128k_512 = 18446744073709549825 /\
  spec_num_read_offsets cfg_big_records dev_128k_512 = -1791 /\
  geometry_of (discover_num_blocks cfg_huge_records (disk (2 ^ 30) 512)
                 blank_world (blank_device 0)) = Some (dev_1g_512_huge, true) /\
  read_req_min_op_blocks cfg_huge_records dev_1g_512_huge = Ret 0 /\
  spec_read_req_blocks cfg_huge_records dev_1g_512_huge = 8388608 /\
  read_bytes dev_1g_512_huge = 0 /\
  spec_read_bytes cfg_huge_records dev_1g_512_huge = 4294967296.
Proof. repeat split. Qed.




(** Claim C5, as the code has it. A round of the generator that sees
    g_running set increments g_read_reqs_queued before anything else. If the
    new value exceeds the constant MAX_READ_REQS_QUEUED = 100000, whatever
    the configuration says, the generator prints the overload message,
    clears g_running and leaves without pushing a request; otherwise the
    round is not an overload exit and leaves g_running set. *)
Theorem overload_threshold
    (c : act_cfg) (devs : list device) (i : gen_input) (ins : list gen_input)
    (w : world) (count : Z) :
  g_running (g_before i w) = true ->
  let w0 := g_before i w in
  let v := u32 (g_read_reqs_queued w0 + 1) in
  MAX_READ_REQS_QUEUED = 100000 /\
  (v > MAX_READ_REQS_QUEUED ->
   let res := add_readreqs_loop c devs (i :: ins) w count in
   how res = GenOverload /\ pushed res = [] /\
   g_running (final res) = false /\
   g_read_reqs_queued (final res) = v /\
   req_queue (final res) = req_queue w0 /\
   trace (final res)
     = trace w0 ++ [EvPrint ErrTooManyReadReqs; EvPrint ErrCantKeepUp]) /\
  (v <= MAX_READ_REQS_QUEUED ->
   let res := add_readreqs_loop c devs [i] w count in
   how res <> GenOverload /\ how res <> GenStopped /\
   g_running (final res) = true /\
   g_read_reqs_queued (final res) = v).
Proof.
  intros Hr w0 v. subst v w0. split; [reflexivity|]. split.
  - intros Hv res. subst res. cbn [add_readreqs_loop]. rewrite Hr.
    cbn [negb]. unfold too_many_queued, cf_atomic32_incr.
    rewrite (proj2 (Z.gtb_gt _ _) Hv). cbn.
    rewrite <- app_assoc. auto 10.
  - intros Hv res. subst res. cbn [add_readreqs_loop]. rewrite Hr.
    cbn [negb]. unfold too_many_queued, cf_atomic32_incr.
    assert (E : (u32 (g_read_reqs_queued (g_before i w) + 1)
                 >? MAX_READ_REQS_QUEUED) = false).
    { rewrite Z.gtb_ltb. apply Z.ltb_ge. exact Hv. }
    rewrite E.
    destruct (enqueue_readreq c devs _ count i) as [[[w2 qi] r]|] eqn:Eq.
    + apply enqueue_readreq_inv in Eq. destruct Eq as (_ & _ & Ew & _). subst w2.
      destruct (pace c (u64 (count + 1)) i); cbn;
        repeat split; try discriminate; assumption.
    + cbn. repeat split; try discriminate; assumption.
Qed.

Lemma overload_threshold_witness :
  how (add_readreqs_loop cfg_default [dev_1g_512] [alone 0 0 0]
         (set_read_reqs_queued (started blank_world) 100000) 0) = GenOverload.
Proof.
  refine (proj1 (proj1 (proj2
    (overload_threshold cfg_default [dev_1g_512] (alone 0 0 0) []
       (set_read_reqs_queued (started blank_world) 100000) 0 eq_refl)) _)).
  cbv. reflexivity.
Defined.

(** Claim C5 as stated fails: with max-reqs-queued configured as 5 and
    five requests queued, the round takes the counter to 6, pushes a
    request and leaves g_running set. *)
Lemma configured_threshold_is_not_read :
  let c := with_max_reqs_queued cfg_default 5 in
  let res := add_readreqs_loop c [dev_1g_512] [alone 0 0 0]
               (set_read_reqs_queued (started blank_world) 5) 0 in
  max_reqs_queued c = 5 /\
  g_read_reqs_queued (final res) = 6 /\
  length (pushed res) = 1%nat /\
  how res = GenUnfinished /\
  g_running (final res) = true.
Proof. repeat split. Qed.

(** Claim C9. The push of iteration count goes to queue count mod
    num_queues: the request is appended to that queue of the world as the
    other threads left it, and no other queue changes. So of any [len]
    consecutive pushes every queue receives floor(len / num_queues) or
    ceil(len / num_queues), whatever the devices; and when no other thread
    touches the world during those iterations, the queue is longer by
    exactly these requests after them than before. The iteration count is a
    64-bit integer, and the statement is for the first 2^64 iterations. *)
Theorem round_robin_fan_out
    (c : act_cfg) (devs : list device) (ins : list gen_input) (w : world)
    (from len : nat) (q : Z) :
  0 < num_queues c < 2 ^ 32 ->
  Z.of_nat (length (pushed (run_add_readreqs c devs ins w))) <= 2 ^ 64 ->
  (from + len <= length (pushed (run_add_readreqs c devs ins w)))%nat ->
  0 <= q < num_queues c ->
  let after_rounds k := final (run_add_readreqs c devs (firstn k ins) w) in
  let got := filter (fun p => fst p =? q)
               (window from len (pushed (run_add_readreqs c devs ins w))) in
  (forall j p, nth_error (pushed (run_add_readreqs c devs ins w)) j = Some p ->
     fst p = Z.of_nat j mod num_queues c /\
     exists i, nth_error ins j = Some i /\
       req_queue (after_rounds (S j)) (fst p)
       = req_queue (g_before i (after_rounds j)) (fst p) ++ [snd p] /\
       forall q', q' <> fst p ->
         req_queue (after_rounds (S j)) q'
         = req_queue (g_before i (after_rounds j)) q') /\
  (received q (window from len (pushed (run_add_readreqs c devs ins w)))
     = Z.of_nat len / num_queues c \/
   received q (window from len (pushed (run_add_readreqs c devs ins w)))
     = ceil_div (Z.of_nat len) (num_queues c)) /\
  (Forall undisturbed_gen (window from len ins) ->
   req_queue (after_rounds (from + len)%nat) q
   = req_queue (after_rounds from) q ++ map snd got /\
   (Z.of_nat (length (map snd got)) = Z.of_nat len / num_queues c \/
    Z.of_nat (length (map snd got)) = ceil_div (Z.of_nat len) (num_queues c))).
Proof.
  intros Hq Hl Hw Hr after_rounds got. subst after_rounds got.
  unfold run_add_readreqs in *.
  pose proof (pushed_queues c devs ins w 0 Hq ltac:(lia) ltac:(lia)) as M.
  assert (Share :
    received q (window from len (pushed (add_readreqs_loop c devs ins w 0)))
      = Z.of_nat len / num_queues c \/
    received q (window from len (pushed (add_readreqs_loop c devs ins w 0)))
      = ceil_div (Z.of_nat len) (num_queues c)).
  { rewrite (received_hits (num_queues c) q _ from len M Hw).
    rewrite hits_formula by exact Hr.
    replace (Z.of_nat from + Z.of_nat len + num_queues c - 1 - q)
      with (Z.of_nat from + num_queues c - 1 - q + Z.of_nat len) by lia.
    apply share_of_window; lia. }
  split; [|split].
  - intros j p Hj. split.
    + set (l := pushed (add_readreqs_loop c devs ins w 0)) in *.
      assert (E : nth_error (map fst l) j = Some (fst p))
        by (apply map_nth_error; exact Hj).
      rewrite M, nth_error_map, nth_error_seq in E.
      assert (Hjl : (j < length l)%nat)
        by (apply nth_error_Some; rewrite Hj; discriminate).
      rewrite (proj2 (Nat.ltb_lt _ _) Hjl) in E. cbn in E.
      inversion E as [E']. reflexivity.
    + apply loop_round_reaches_queue. exact Hj.
  - exact Share.
  - intros Hu. split.
    + apply undisturbed_window_reaches_queue; assumption.
    + rewrite length_map. exact Share.
Qed.

Lemma round_robin_fan_out_witness :
  req_queue (final (run_add_readreqs cfg_default [dev_1g_512]
                      [alone 0 0 9; alone 0 1 1; alone 0 0 0]
                      (started blank_world))) 0
  = [{| p_device := dev_1g_512; offset := 4608; size := 1536; start_time := 0 |};
     {| p_device := dev_1g_512; offset := 0; size := 1536; start_time := 0 |}].
Proof.
  refine (proj1 (proj2 (proj2 (round_robin_fan_out cfg_default [dev_1g_512]
                   [alone 0 0 9; alone 0 1 1; alone 0 0 0]
                   (started blank_world) 0 3 0 _ _ _ _)) _)).
  - cbn. lia.
  - cbn. lia.
  - cbn. lia.
  - cbn. lia.
  - repeat constructor.
Defined.

(** ** Shutdown *)

Lemma steps_first c devs s1 s2 s3 :
  step c devs s1 s2 -> steps c devs s2 s3 -> steps c devs s1 s3.
Proof.
  intros H1 H2. induction H2.
  - eapply steps_more; [apply steps_refl|exact H1].
  - eapply steps_more; [|eassumption]. auto.
Qed.

Lemma all_returned_hold_nothing l : Forall returned l -> total_held l = 0.
Proof.
  unfold total_held. induction 1 as [|p l Hp F IH]; [reflexivity|].
  cbn. rewrite IH. unfold held. rewrite Hp. reflexivity.
Qed.

(** Claim C7, as the code has it. When main has cleared g_running and
    joined the generator and all workers, g_read_reqs_queued equals the
    number of requests left in the queues, which the workers no longer pop,
    plus one if the generator left through the overload exit. *)
Theorem reqs_queued_after_shutdown
    (c : act_cfg) (devs : list device) (w : world) (s : sys) :
  0 <= num_queues c ->
  steps c devs (init c w) s -> mpc s = MainDone ->
  g_running (shared s) = false /\
  (exists b, gpc s = GenReturned b) /\
  Forall returned (workers s) /\
  g_read_reqs_queued (shared s)
    = total_queued c (shared s) + overloaded_exit (gpc s).
Proof.
  intros Hq Hs Hm.
  destruct (counter_inv_steps c devs Hq w s Hs) as (Hx & _ & _ & Hr & Hg & Hw).
  specialize (Hw Hm). destruct (Hg (or_intror Hm)) as [b Hb].
  repeat split.
  - apply Hr. rewrite Hm. discriminate.
  - exists b. exact Hb.
  - exact Hw.
  - rewrite Hx, (all_returned_hold_nothing _ Hw), Hb. destruct b; cbn; lia.
Qed.


Ltac next_step tac :=
  eapply steps_first; [tac; reflexivity|];
  cbn -[after_stop_under_load serve_readreq].

Lemma stop_under_load_reachable :
  steps cfg_one_queue [dev_1g_512] (init cfg_one_queue blank_world)
    after_stop_under_load.
Proof.
  next_step ltac:(apply gen_test_true).
  next_step ltac:(eapply gen_incr).
  next_step ltac:(eapply (gen_push _ _ _ (alone 0 0 0))).
  next_step ltac:(apply (wk_test _ _ _ [] 0 [])).
  next_step ltac:(eapply (wk_pop _ _ _ [] 0 [])).
  next_step ltac:(apply gen_test_true).
  next_step ltac:(eapply gen_incr).
  next_step ltac:(eapply (gen_push _ _ _ (alone 0 0 9))).
  next_step ltac:(apply main_stop).
  next_step ltac:(eapply (wk_serve _ _ _ [] 0 [] req_0
                            (at_stack 5000 (io_good 1536)))).
  next_step ltac:(apply (wk_test _ _ _ [] 0 [])).
  next_step ltac:(apply gen_test_false).
  next_step ltac:(eapply main_join_gen).
  eapply steps_first;
    [apply main_join_workers; [reflexivity|repeat constructor]|].
  apply steps_refl.
Qed.

Lemma reqs_queued_after_shutdown_witness :
  g_read_reqs_queued (shared after_stop_under_load)
  = total_queued cfg_one_queue (shared after_stop_under_load)
    + overloaded_exit (gpc after_stop_under_load).
Proof.
  refine (proj2 (proj2 (proj2
    (reqs_queued_after_shutdown cfg_one_queue [dev_1g_512] blank_world
       after_stop_under_load _ stop_under_load_reachable eq_refl)))).
  cbn. lia.
Defined.

(** Claim C7 as stated fails: the generator pushes a request, the worker
    pops it, the generator pushes a second one, and main stops the run. The
    worker finishes the first request, sees g_running cleared and returns;
    the generator returns; main joins both. The second request is still in
    the queue and g_read_reqs_queued is 1. *)
Lemma reqs_queued_left_at_one :
  steps cfg_one_queue [dev_1g_512] (init cfg_one_queue blank_world)
    after_stop_under_load /\
  mpc after_stop_under_load = MainDone /\
  gpc after_stop_under_load = GenReturned false /\
  Forall returned (workers after_stop_under_load) /\
  req_queue (shared after_stop_under_load) 0 = [req_4608] /\
  g_read_reqs_queued (shared after_stop_under_load) = 1.
Proof.
  split; [exact stop_under_load_reachable|].
  repeat split. repeat constructor.
Qed.

(** * Further properties *)

(** ** The probe *)

(** X1. discover_min_op_bytes answers the least of the sizes 512, 1024,
    2048 and 4096 at which the read returns the size asked for; it answers 0
    when no size does, and also when the seek to 0 fails or the buffer
    cannot be allocated, in which cases it issues no read at all. *)
Theorem min_op_bytes_is_least_readable (e : dev_env) (w : world) (fd : Z) :
  let m := snd (discover_min_op_bytes e w fd) in
  let w' := fst (discover_min_op_bytes e w fd) in
  let ready := (seek0_ret e =? 0) &&
               negb (cf_valloc (memalign_status e) (memalign_pv e) =? 0) in
  (ready = false ->
   m = 0 /\ exists msg, trace w' = trace w ++ [EvSeek fd 0; EvPrint msg]) /\
  (ready = true ->
   (m = 0 /\ forall s, In s [512; 1024; 2048; 4096] -> probe_read_ret e s <> s) \/
   (In m [512; 1024; 2048; 4096] /\ probe_read_ret e m = m /\
    forall s, In s [512; 1024; 2048; 4096] -> s < m -> probe_read_ret e s <> s)).
Proof.
  intros m w' ready. subst m w' ready. unfold discover_min_op_bytes.
  destruct (seek0_ret e =? 0); cbn [negb andb].
  2:{ split; [|discriminate]. intros _. split; [reflexivity|].
      exists ErrSeek. cbn. rewrite <- app_assoc. reflexivity. }
  destruct (cf_valloc (memalign_status e) (memalign_pv e) =? 0); cbn [negb].
  { split; [|discriminate]. intros _. split; [reflexivity|].
    exists ErrMinSizeValloc. cbn. rewrite <- app_assoc. reflexivity. }
  split; [discriminate|]. intros _.
  unfold LO_IO_MIN_SIZE. cbn [probe_loop].
  change (512 <=? HI_IO_MIN_SIZE) with true. cbv iota.
  change (u64 (Z.shiftl 512 1)) with 1024.
  change (1024 <=? HI_IO_MIN_SIZE) with true. cbv iota.
  change (u64 (Z.shiftl 1024 1)) with 2048.
  change (2048 <=? HI_IO_MIN_SIZE) with true. cbv iota.
  change (u64 (Z.shiftl 2048 1)) with 4096.
  change (4096 <=? HI_IO_MIN_SIZE) with true. cbv iota.
  change (u64 (Z.shiftl 4096 1)) with 8192.
  change (8192 <=? HI_IO_MIN_SIZE) with false. cbv iota.
  destruct (probe_read_ret e 512 =? 512) eqn:E1.
  { right. cbn [snd]. apply Z.eqb_eq in E1.
    split; [simpl; tauto|]. split; [exact E1|].
    intros s Hs Hlt. simpl in Hs. lia. }
  destruct (probe_read_ret e 1024 =? 1024) eqn:E2.
  { right. cbn [snd]. apply Z.eqb_eq in E2. apply Z.eqb_neq in E1.
    split; [simpl; tauto|]. split; [exact E2|].
    intros s Hs Hlt. simpl in Hs.
    destruct Hs as [<- | [<- | [<- | [<- | []]]]]; try lia; assumption. }
  destruct (probe_read_ret e 2048 =? 2048) eqn:E3.
  { right. cbn [snd]. apply Z.eqb_eq in E3.
    apply Z.eqb_neq in E1. apply Z.eqb_neq in E2.
    split; [simpl; tauto|]. split; [exact E3|].
    intros s Hs Hlt. simpl in Hs.
    destruct Hs as [<- | [<- | [<- | [<- | []]]]]; try lia; assumption. }
  apply Z.eqb_neq in E1. apply Z.eqb_neq in E2. apply Z.eqb_neq in E3.
  destruct (probe_read_ret e 4096 =? 4096) eqn:E4.
  { right. cbn [snd]. apply Z.eqb_eq in E4.
    split; [simpl; tauto|]. split; [exact E4|].
    intros s Hs Hlt. simpl in Hs.
    destruct Hs as [<- | [<- | [<- | [<- | []]]]]; try lia; assumption. }
  apply Z.eqb_neq in E4. left. cbn [snd]. split; [reflexivity|].
  intros s Hs. simpl in Hs.
  destruct Hs as [<- | [<- | [<- | [<- | []]]]]; assumption.
Qed.

Lemma min_op_bytes_is_least_readable_witness :
  snd (discover_min_op_bytes (disk (2 ^ 30) 2048) blank_world 3) = 2048.
Proof.
  destruct (proj2 (min_op_bytes_is_least_readable (disk (2 ^ 30) 2048)
                     blank_world 3) eq_refl) as [[H _]|[_ [_ _]]].
  - discriminate H.
  - reflexivity.
Defined.

(** ** Setup and the descriptor pools *)

Lemma probe_loop_pools rounds : forall e w fd buf sz w' m,
  probe_loop rounds e w fd buf sz = Some (w', m) ->
  fd_queue w' = fd_queue w.
Proof.
  induction rounds as [|k IH]; intros e w fd buf sz w' m; cbn [probe_loop].
  - destruct (sz <=? HI_IO_MIN_SIZE); intros H; inversion H; reflexivity.
  - destruct (sz <=? HI_IO_MIN_SIZE); [|intros H; inversion H; reflexivity].
    destruct (probe_read_ret e sz =? sz).
    + intros H; inversion H; reflexivity.
    + intros H. apply IH in H. exact H.
Qed.

Lemma discover_min_op_bytes_pools e w fd :
  fd_queue (fst (discover_min_op_bytes e w fd)) = fd_queue w.
Proof.
  unfold discover_min_op_bytes.
  destruct (negb (seek0_ret e =? 0)); [reflexivity|].
  destruct (cf_valloc (memalign_status e) (memalign_pv e) =? 0); [reflexivity|].
  destruct (probe_loop 4 e (emit w (EvSeek fd 0)) fd
              (cf_valloc (memalign_status e) (memalign_pv e)) LO_IO_MIN_SIZE)
    as [[w' m]|] eqn:E; [|reflexivity].
  apply probe_loop_pools in E. exact E.
Qed.

Lemma discover_num_blocks_pool c e w i w' d :
  discover_num_blocks c e (set_fd_queue w i []) (blank_device i) = Ret (w', d, true) ->
  n d = i /\ open_ret e <> -1 /\ fd_queue w' i = [open_ret e] /\
  forall j, j <> i -> fd_queue w' j = fd_queue w j.
Proof.
  intros H. pose proof (discover_num_blocks_true _ _ _ _ _ _ H) as [_ Hn].
  cbn [n blank_device] in Hn.
  unfold discover_num_blocks, fd_get in H.
  cbn [fd_queue set_fd_queue n blank_device] in H. rewrite Z.eqb_refl in H.
  destruct (open_ret e =? -1) eqn:Eo.
  - rewrite Eo in H. discriminate.
  - rewrite Eo in H. apply Z.eqb_neq in Eo.
    unfold udiv at 1 in H.
    destruct (large_block_ops_bytes c =? 0); [discriminate|]. cbn [bind] in H.
    match type of H with
    | context [discover_min_op_bytes e ?w1 ?fd] =>
        pose proof (discover_min_op_bytes_pools e w1 fd) as P;
        destruct (discover_min_op_bytes e w1 fd) as [w2 m]
    end.
    cbn [fst] in P.
    cbn [set_min_op_bytes set_num_large_blocks num_large_blocks min_op_bytes n] in H.
    destruct ((device_bytes e / large_block_ops_bytes c =? 0) || (u32 m =? 0));
      [discriminate|].
    unfold num_min_op_blocks, read_req_min_op_blocks, udiv in H.
    cbn [set_min_op_bytes set_num_large_blocks num_large_blocks min_op_bytes n] in H.
    destruct (u32 m =? 0); [discriminate|]. cbn [bind] in H.
    inversion H; subst; clear H.
    cbn [fd_queue emit fd_put set_fd_queue n set_read_bytes set_num_read_offsets
         set_min_op_bytes set_num_large_blocks blank_device].
    rewrite P. cbn [fd_queue emit set_fd_queue]. rewrite !Z.eqb_refl.
    repeat split; try assumption.
    intros j Hj. rewrite (proj2 (Z.eqb_neq _ _) Hj). reflexivity.
Qed.

Lemma setup_devices_below c es : forall i w w' ds,
  setup_devices c es i w = Ret (Some (w', ds)) ->
  forall j, j < i -> fd_queue w' j = fd_queue w j.
Proof.
  induction es as [|e es IH]; intros i w w' ds H j Hj.
  - cbn in H. inversion H; subst. reflexivity.
  - cbn [setup_devices] in H.
    destruct (negb (queue_ok e)); [discriminate|].
    destruct (discover_num_blocks c (dev e) (set_fd_queue w i []) (blank_device i))
      as [[[w1 d] ok]|] eqn:E; [|discriminate].
    cbn [bind] in H. destruct ok; [|discriminate]. cbn [negb] in H.
    destruct (negb (hist_ok e)); [discriminate|].
    destruct (setup_devices c es (i + 1) w1) as [[[w2 ds']|]|] eqn:E';
      cbn [bind] in H; try discriminate.
    inversion H; subst.
    rewrite (IH _ _ _ _ E' j ltac:(lia)).
    apply discover_num_blocks_pool in E. destruct E as (_ & _ & _ & E).
    apply E. lia.
Qed.

(** X2. When the device loop of main succeeds, it has made one device per
    configured name; the device of position k has index k and its pool
    holds exactly one descriptor, the one the probe opened. *)
Theorem setup_leaves_one_descriptor_per_device
    (c : act_cfg) (es : list setup_env) (w w' : world) (ds : list device) :
  setup_devices c es 0 w = Ret (Some (w', ds)) ->
  length ds = length es /\
  forall k e d, nth_error es k = Some e -> nth_error ds k = Some d ->
    n d = Z.of_nat k /\ open_ret (dev e) <> -1 /\
    fd_queue w' (Z.of_nat k) = [open_ret (dev e)].
Proof.
  assert (G : forall es i w w' ds,
             setup_devices c es i w = Ret (Some (w', ds)) ->
             length ds = length es /\
             forall k e d, nth_error es k = Some e -> nth_error ds k = Some d ->
               n d = i + Z.of_nat k /\ open_ret (dev e) <> -1 /\
               fd_queue w' (i + Z.of_nat k) = [open_ret (dev e)]).
  { clear. intros es. induction es as [|e es IH]; intros i w w' ds H.
    - cbn in H. inversion H; subst. split; [reflexivity|].
      intros k e d Hk. destruct k; discriminate.
    - cbn [setup_devices] in H.
      destruct (negb (queue_ok e)); [discriminate|].
      destruct (discover_num_blocks c (dev e) (set_fd_queue w i []) (blank_device i))
        as [[[w1 d] ok]|] eqn:E; [|discriminate].
      cbn [bind] in H. destruct ok; [|discriminate]. cbn [negb] in H.
      destruct (negb (hist_ok e)); [discriminate|].
      destruct (setup_devices c es (i + 1) w1) as [[[w2 ds']|]|] eqn:E';
        cbn [bind] in H; try discriminate.
      inversion H; subst.
      destruct (IH _ _ _ _ E') as [L P].
      apply discover_num_blocks_pool in E. destruct E as (En & Eo & Ep & _).
      split; [cbn; congruence|].
      intros k e0 d0 Hk Hd. destruct k as [|k]; cbn in Hk, Hd.
      + injection Hk as <-. injection Hd as <-.
        rewrite Z.add_0_r. repeat split; try assumption.
        rewrite (setup_devices_below _ _ _ _ _ _ E' i ltac:(lia)). exact Ep.
      + destruct (P k e0 d0 Hk Hd) as (P1 & P2 & P3).
        replace (i + Z.of_nat (S k)) with (i + 1 + Z.of_nat k) by lia. auto. }
  intros H. destruct (G es 0 w w' ds H) as [L P]. split; [exact L|].
  intros k e d Hk Hd. destruct (P k e d Hk Hd) as (P1 & P2 & P3). auto.
Qed.

Lemma setup_leaves_one_descriptor_per_device_witness :
  length [dev_1g_512] = length (one_disk (2 ^ 30) 512).
Proof.
  exact (proj1 (setup_leaves_one_descriptor_per_device cfg_default
                  (one_disk (2 ^ 30) 512) blank_world
                  (world_of (setup_devices cfg_default (one_disk (2 ^ 30) 512) 0
                               blank_world))
                  [dev_1g_512] eq_refl)).
Defined.

(** ** Descriptors are neither lost nor leaked *)

Lemma descriptors_gained_app a b :
  descriptors_gained (a ++ b) = descriptors_gained a + descriptors_gained b.
Proof. unfold descriptors_gained. induction a as [|e a IH]; cbn; lia. Qed.

Lemma fd_get_conserves w d o :
  ~ In (-1) (fd_queue w (n d)) ->
  let w1 := fst (fd_get w d o) in
  let fd := snd (fd_get w d o) in
  exists es,
    trace w1 = trace w ++ es /\
    Z.of_nat (length (fd_queue w1 (n d))) + (if fd =? -1 then 0 else 1)
      = Z.of_nat (length (fd_queue w (n d))) + descriptors_gained es /\
    ~ In (-1) (fd_queue w1 (n d)) /\
    (forall j, j <> n d -> fd_queue w1 j = fd_queue w j).
Proof.
  intros Hp. unfold fd_get.
  destruct (fd_queue w (n d)) as [|fd0 rest] eqn:E.
  - destruct (o =? -1) eqn:Eo; cbn [fst snd].
    + exists [EvOpen (n d) o; EvPrint ErrOpenDevice].
      cbn [trace emit fd_queue]. rewrite <- app_assoc, E, Eo.
      cbn. rewrite Eo. repeat split; auto.
    + exists [EvOpen (n d) o].
      cbn [trace emit fd_queue]. rewrite E, Eo.
      cbn. rewrite Eo. repeat split; auto.
  - cbn [fst snd]. exists [].
    assert (fd0 <> -1) by (intros ->; apply Hp; left; reflexivity).
    rewrite (proj2 (Z.eqb_neq _ _) H).
    cbn [trace fd_queue set_fd_queue]. rewrite Z.eqb_refl, app_nil_r.
    cbn [length descriptors_gained fold_right].
    repeat split; try lia.
    + intros C. apply Hp. right. exact C.
    + intros j Hj. rewrite (proj2 (Z.eqb_neq _ _) Hj). reflexivity.
Qed.

Ltac conserve_after G fd tail :=
  let es0 := fresh "es0" in
  let T := fresh "T" in
  let L := fresh "L" in
  let P := fresh "P" in
  let O := fresh "O" in
  destruct G as (es0 & T & L & P & O);
  exists (es0 ++ tail);
  cbn [trace emit fd_queue fd_put set_fd_queue fst];
  rewrite ?Z.eqb_refl, T, descriptors_gained_app;
  repeat rewrite <- app_assoc; cbn [app];
  repeat split.

Lemma do_op_conserves w d o :
  ~ In (-1) (fd_queue w (n d)) ->
  exists es,
    trace (do_op w d o) = trace w ++ es /\
    Z.of_nat (length (fd_queue (do_op w d o) (n d)))
      = Z.of_nat (length (fd_queue w (n d))) + descriptors_gained es /\
    ~ In (-1) (fd_queue (do_op w d o) (n d)) /\
    (forall j, j <> n d -> fd_queue (do_op w d o) j = fd_queue w j).
Proof.
  intros Hp.
  destruct o as [off len buf io|off len buf io]; cbn [do_op];
    pose proof (fd_get_conserves w d (io_open_ret io) Hp) as G; cbv zeta in G;
    [unfold read_from_device|unfold write_to_device];
    destruct (fd_get w d (io_open_ret io)) as [w1 fd]; cbn [fst snd] in G;
    destruct (fd =? -1) eqn:Efd.
  - destruct G as (es0 & T & L & P & O). exists es0. cbn [fst].
    repeat split; try assumption. lia.
  - destruct (negb (u64 (lseek_ret (io_seek_ok io) off) =? off));
      [|destruct (negb (io_xfer_ret io =? len))].
    + conserve_after G fd [EvSeek fd off; EvClose fd; EvPrint ErrSeekRead];
        try assumption. cbn. lia.
    + conserve_after G fd [EvSeek fd off; EvRead fd buf len; EvClose fd;
                           EvPrint ErrSeekRead]; try assumption. cbn. lia.
    + conserve_after G fd [EvSeek fd off; EvRead fd buf len].
      * rewrite length_app. cbn. lia.
      * intros C. apply in_app_or in C. destruct C as [C|[C|[]]]; [auto|].
        apply Z.eqb_neq in Efd. congruence.
      * intros j Hj. rewrite (proj2 (Z.eqb_neq _ _) Hj). auto.
  - destruct G as (es0 & T & L & P & O). exists es0. cbn [fst].
    repeat split; try assumption. lia.
  - destruct (negb (u64 (lseek_ret (io_seek_ok io) off) =? off));
      [|destruct (negb (io_xfer_ret io =? len))].
    + conserve_after G fd [EvSeek fd off; EvClose fd; EvPrint ErrSeekWrite];
        try assumption. cbn. lia.
    + conserve_after G fd [EvSeek fd off; EvWrite fd buf len; EvClose fd;
                           EvPrint ErrSeekWrite]; try assumption. cbn. lia.
    + conserve_after G fd [EvSeek fd off; EvWrite fd buf len].
      * rewrite length_app. cbn. lia.
      * intros C. apply in_app_or in C. destruct C as [C|[C|[]]]; [auto|].
        apply Z.eqb_neq in Efd. congruence.
      * intros j Hj. rewrite (proj2 (Z.eqb_neq _ _) Hj). auto.
Qed.

(** X3. An operation of read_from_device or write_to_device, whatever its
    outcome, changes the length of the device's pool by the descriptors it
    opened minus those it closed: a descriptor is pooled again or closed,
    never dropped. The pools of the other devices stay as they were. *)
Theorem engine_keeps_track_of_descriptors (w : world) (d : device) (o : dev_op) :
  ~ In (-1) (fd_queue w (n d)) ->
  exists es,
    trace (do_op w d o) = trace w ++ es /\
    Z.of_nat (length (fd_queue (do_op w d o) (n d)))
      = Z.of_nat (length (fd_queue w (n d))) + descriptors_gained es /\
    ~ In (-1) (fd_queue (do_op w d o) (n d)) /\
    (forall j, j <> n d -> fd_queue (do_op w d o) j = fd_queue w j).
Proof. apply do_op_conserves. Qed.

Lemma engine_keeps_track_of_descriptors_witness :
  exists es,
    trace (do_op blank_world dev_1g_512 (DevRead 4608 1536 8192 io_bad_seek))
      = trace blank_world ++ es /\
    Z.of_nat (length (fd_queue
                (do_op blank_world dev_1g_512 (DevRead 4608 1536 8192 io_bad_seek))
                (n dev_1g_512)))
      = Z.of_nat (length (fd_queue blank_world (n dev_1g_512)))
        + descriptors_gained es /\
    ~ In (-1) (fd_queue
                 (do_op blank_world dev_1g_512 (DevRead 4608 1536 8192 io_bad_seek))
                 (n dev_1g_512)) /\
    (forall j, j <> n dev_1g_512 ->
       fd_queue (do_op blank_world dev_1g_512 (DevRead 4608 1536 8192 io_bad_seek)) j
       = fd_queue blank_world j).
Proof.
  apply (engine_keeps_track_of_descriptors blank_world dev_1g_512
           (DevRead 4608 1536 8192 io_bad_seek)).
  cbn. tauto.
Defined.

Lemma fd_close_loop_spec rounds : forall w d,
  (length (fd_queue w (n d)) <= rounds)%nat ->
  let w' := fd_close_loop rounds w d in
  fd_queue w' (n d) = [] /\
  trace w' = trace w ++ map EvClose (fd_queue w (n d)) /\
  (forall j, j <> n d -> fd_queue w' j = fd_queue w j) /\
  g_running w' = g_running w /\
  g_read_reqs_queued w' = g_read_reqs_queued w /\
  req_queue w' = req_queue w /\ histogram w' = histogram w.
Proof.
  induction rounds as [|k IH]; intros w d Hl; cbn [fd_close_loop].
  - destruct (fd_queue w (n d)) as [|fd rest] eqn:E; [|cbn in Hl; lia].
    cbn. rewrite E, app_nil_r. auto 10.
  - destruct (fd_queue w (n d)) as [|fd rest] eqn:E.
    + cbn. rewrite E, app_nil_r. auto 10.
    + cbn zeta.
      set (w1 := emit (set_fd_queue w (n d) rest) (EvClose fd)).
      assert (E1 : fd_queue w1 (n d) = rest).
      { unfold w1. cbn. rewrite Z.eqb_refl. reflexivity. }
      specialize (IH w1 d). rewrite E1 in IH. cbv zeta in IH.
      destruct (IH ltac:(cbn in Hl; lia)) as (I1 & I2 & I3 & I4 & I5 & I6 & I7).
      repeat split; try assumption.
      * rewrite I2. unfold w1. cbn. rewrite <- app_assoc. reflexivity.
      * intros j Hj. rewrite (I3 j Hj). unfold w1. cbn.
        rewrite (proj2 (Z.eqb_neq _ _) Hj). reflexivity.
Qed.

(** X4. fd_close_all leaves the pool of the device empty, having closed the
    descriptors it held, each once and in pool order; it touches no other
    pool, no request queue, no histogram and neither global. *)
Theorem fd_close_all_closes_the_pool (w : world) (d : device) :
  let w' := fd_close_all w d in
  fd_queue w' (n d) = [] /\
  trace w' = trace w ++ map EvClose (fd_queue w (n d)) /\
  (forall j, j <> n d -> fd_queue w' j = fd_queue w j) /\
  g_running w' = g_running w /\
  g_read_reqs_queued w' = g_read_reqs_queued w /\
  req_queue w' = req_queue w /\ histogram w' = histogram w.
Proof. apply fd_close_loop_spec. apply Nat.le_refl. Qed.

Lemma do_ops_conserves os : forall w d,
  ~ In (-1) (fd_queue w (n d)) ->
  exists es,
    trace (do_ops w d os) = trace w ++ es /\
    Z.of_nat (length (fd_queue (do_ops w d os) (n d)))
      = Z.of_nat (length (fd_queue w (n d))) + descriptors_gained es /\
    ~ In (-1) (fd_queue (do_ops w d os) (n d)).
Proof.
  unfold do_ops. induction os as [|o os IH]; intros w d Hp; cbn [fold_left].
  - exists []. rewrite app_nil_r. cbn. repeat split; auto. lia.
  - destruct (do_op_conserves w d o Hp) as (es1 & T1 & L1 & P1 & _).
    destruct (IH (do_op w d o) d P1) as (es2 & T2 & L2 & P2).
    exists (es1 ++ es2). rewrite T2, T1, app_assoc, descriptors_gained_app.
    repeat split; try assumption. lia.
Qed.

Lemma descriptors_gained_closes l :
  descriptors_gained (map EvClose l) = - Z.of_nat (length l).
Proof.
  unfold descriptors_gained.
  induction l as [|x l IH]; cbn [map fold_right length descriptor_change];
    [reflexivity|].
  rewrite IH. lia.
Qed.

Lemma probe_loop_gains rounds : forall e w fd buf sz w' m,
  probe_loop rounds e w fd buf sz = Some (w', m) ->
  exists es, trace w' = trace w ++ es /\ descriptors_gained es = 0.
Proof.
  induction rounds as [|k IH]; intros e w fd buf sz w' m; cbn [probe_loop].
  - destruct (sz <=? HI_IO_MIN_SIZE); intros H; inversion H; subst.
    exists [EvPrint ErrReadAllSizes]. split; reflexivity.
  - destruct (sz <=? HI_IO_MIN_SIZE).
    + destruct (probe_read_ret e sz =? sz).
      * intros H; inversion H; subst. exists [EvRead fd buf m]. split; reflexivity.
      * intros H. apply IH in H. destruct H as (es & T & G).
        exists (EvRead fd buf sz :: es). rewrite T. cbn [trace emit].
        rewrite <- app_assoc. split; [reflexivity|]. cbn. exact G.
    + intros H; inversion H; subst.
      exists [EvPrint ErrReadAllSizes]. split; reflexivity.
Qed.

Lemma discover_min_op_bytes_gains e w fd :
  exists es, trace (fst (discover_min_op_bytes e w fd)) = trace w ++ es /\
             descriptors_gained es = 0.
Proof.
  unfold discover_min_op_bytes.
  destruct (negb (seek0_ret e =? 0)).
  { exists [EvSeek fd 0; EvPrint ErrSeek]. cbn. rewrite <- app_assoc. auto. }
  destruct (cf_valloc (memalign_status e) (memalign_pv e) =? 0).
  { exists [EvSeek fd 0; EvPrint ErrMinSizeValloc]. cbn. rewrite <- app_assoc. auto. }
  destruct (probe_loop 4 e (emit w (EvSeek fd 0)) fd
              (cf_valloc (memalign_status e) (memalign_pv e)) LO_IO_MIN_SIZE)
    as [[w' m]|] eqn:E.
  - apply probe_loop_gains in E. destruct E as (es & T & G).
    exists (EvSeek fd 0 :: es). cbn [fst]. rewrite T. cbn [trace emit].
    rewrite <- app_assoc. split; [reflexivity|]. cbn. exact G.
  - exists [EvSeek fd 0]. split; reflexivity.
Qed.

Lemma discover_num_blocks_gains c e w i w' d :
  discover_num_blocks c e (set_fd_queue w i []) (blank_device i) = Ret (w', d, true) ->
  exists es, trace w' = trace w ++ es /\ descriptors_gained es = 1.
Proof.
  intros H. unfold discover_num_blocks, fd_get in H.
  cbn [fd_queue set_fd_queue n blank_device] in H. rewrite Z.eqb_refl in H.
  destruct (open_ret e =? -1) eqn:Eo; rewrite Eo in H; [discriminate|].
  unfold udiv at 1 in H.
  destruct (large_block_ops_bytes c =? 0); [discriminate|]. cbn [bind] in H.
  match type of H with
  | context [discover_min_op_bytes e ?w1 ?fd] =>
      destruct (discover_min_op_bytes_gains e w1 fd) as (es & T & G);
      destruct (discover_min_op_bytes e w1 fd) as [w2 m]
  end.
  cbn [fst] in T.
  cbn [set_min_op_bytes set_num_large_blocks num_large_blocks min_op_bytes n] in H.
  destruct ((device_bytes e / large_block_ops_bytes c =? 0) || (u32 m =? 0));
    [discriminate|].
  unfold num_min_op_blocks, read_req_min_op_blocks, udiv in H.
  cbn [set_min_op_bytes set_num_large_blocks num_large_blocks min_op_bytes n] in H.
  destruct (u32 m =? 0); [discriminate|]. cbn [bind] in H.
  inversion H; subst; clear H.
  eexists (EvOpen i (open_ret e) :: es ++ [EvPrint _]).
  cbn [trace emit fd_put set_fd_queue]. rewrite T. cbn [trace emit set_fd_queue].
  repeat rewrite <- app_assoc. split; [reflexivity|].
  cbn [descriptors_gained fold_right descriptor_change].
  fold (descriptors_gained (es ++ [EvPrint
    (InfoGeometry (device_bytes e) (device_bytes e / large_block_ops_bytes c)
       (u64 (device_bytes e / large_block_ops_bytes c * large_block_ops_bytes c)
        / u32 m) (u32 m)
       (u32 (u32 (record_bytes c + u32 m - 1) / u32 m * u32 m)))])).
  rewrite descriptors_gained_app, G, Eo. reflexivity.
Qed.

(** X5. Over the life of a device nothing leaks: from the probe that main
    runs on the fresh pool, through any sequence of reads and writes of the
    engine, to fd_close_all at shutdown, the descriptors opened and the
    descriptors closed are equally many, and the pool ends empty. *)
Theorem no_descriptor_leak
    (c : act_cfg) (e : dev_env) (w : world) (i : Z) (w1 : world) (d : device)
    (os : list dev_op) :
  discover_num_blocks c e (set_fd_queue w i []) (blank_device i) = Ret (w1, d, true) ->
  let w' := fd_close_all (do_ops w1 d os) d in
  fd_queue w' (n d) = [] /\
  exists es, trace w' = trace w ++ es /\ descriptors_gained es = 0.
Proof.
  intros H w'.
  destruct (discover_num_blocks_gains _ _ _ _ _ _ H) as (es0 & T0 & G0).
  apply discover_num_blocks_pool in H. destruct H as (En & Eo & Ep & _).
  assert (Hp : ~ In (-1) (fd_queue w1 (n d))).
  { rewrite En, Ep. intros [C|[]]. congruence. }
  destruct (do_ops_conserves os w1 d Hp) as (es1 & T1 & L1 & _).
  pose proof (Cl := fd_close_loop_spec
                (length (fd_queue (do_ops w1 d os) (n d))) (do_ops w1 d os) d
                (Nat.le_refl _)).
  cbv zeta in Cl.
  destruct Cl as (C1 & C2 & _).
  split; [exact C1|].
  exists (es0 ++ es1 ++ map EvClose (fd_queue (do_ops w1 d os) (n d))).
  split.
  - unfold w', fd_close_all. rewrite C2, T1, T0.
    repeat rewrite <- app_assoc. reflexivity.
  - rewrite !descriptors_gained_app, descriptors_gained_closes, G0.
    rewrite En, Ep in L1. cbn [length] in L1. rewrite En. lia.
Qed.

Lemma no_descriptor_leak_witness :
  fd_queue (fd_close_all
              (do_ops (after_probe cfg_default (disk (2 ^ 30) 512) blank_world 0)
                 dev_1g_512
                 [DevRead 4608 1536 8192 (io_good 1536);
                  DevWrite 0 131072 8192 io_bad_seek;
                  DevRead 0 1536 8192 (io_good 1536)])
              dev_1g_512) (n dev_1g_512) = [].
Proof.
  exact (proj1 (no_descriptor_leak cfg_default (disk (2 ^ 30) 512) blank_world 0
                  (after_probe cfg_default (disk (2 ^ 30) 512) blank_world 0)
                  dev_1g_512
                  [DevRead 4608 1536 8192 (io_good 1536);
                   DevWrite 0 131072 8192 io_bad_seek;
                   DevRead 0 1536 8192 (io_good 1536)]
                  eq_refl)).
Defined.

(** X6. When the pool is empty and open() fails, read_from_device and
    write_to_device return (uint64_t)-1 after the open and its error message
    alone: no seek, no transfer, no close; and read_and_report records no
    sample. *)
Theorem open_failure_is_reported
    (w : world) (r : readreq) (off len buf raw : Z) (io : io_env) :
  fd_queue w (n (p_device r)) = [] -> io_open_ret io = -1 ->
  let w' := emit (emit w (EvOpen (n (p_device r)) (-1))) (EvPrint ErrOpenDevice) in
  read_from_device w (p_device r) off len buf io = (w', IO_FAILED) /\
  write_to_device w (p_device r) off len buf io = (w', IO_FAILED) /\
  read_and_report w r buf raw io = w' /\
  histogram w' = histogram w /\ fd_queue w' = fd_queue w.
Proof.
  intros Hp Ho w'. subst w'.
  unfold read_and_report, read_from_device, write_to_device, fd_get.
  rewrite Hp, Ho. cbn. auto.
Qed.

Lemma open_failure_is_reported_witness :
  read_and_report blank_world req_4608 8192 100
    {| io_open_ret := -1; io_seek_ok := true; io_xfer_ret := 1536;
       io_stop_ns := 900 |}
  = emit (emit blank_world (EvOpen 0 (-1))) (EvPrint ErrOpenDevice).
Proof.
  exact (proj1 (proj2 (proj2
    (open_failure_is_reported blank_world req_4608 4608 1536 8192 100
       {| io_open_ret := -1; io_seek_ok := true; io_xfer_ret := 1536;
          io_stop_ns := 900 |} eq_refl eq_refl)))).
Defined.

(** ** Random numbers *)

Lemma land_shiftl_low a b : 0 <= b < 2 ^ 16 -> Z.land (Z.shiftl a 16) b = 0.
Proof.
  intros Hb. apply Z.bits_inj'. intros m Hm.
  rewrite Z.land_spec, Z.bits_0.
  destruct (Z_lt_le_dec m 16).
  - rewrite Z.shiftl_spec_low by assumption. reflexivity.
  - rewrite andb_comm.
    destruct (Z.eq_dec b 0) as [->|Hz]; [rewrite Z.bits_0; reflexivity|].
    rewrite (Z.bits_above_log2 b m); [reflexivity|lia|].
    assert (Z.log2 b < 16) by (apply Z.log2_lt_pow2; lia). lia.
Qed.

(** X7. rand() returns an int that is not negative, so rand_48 is
    65536 times its first value plus the low 16 bits of the second: a number
    below 2^47, of 47 random bits and not 48. *)
Theorem rand_48_has_47_bits (r1 r2 : Z) :
  0 <= r1 < 2 ^ 31 -> 0 <= r2 < 2 ^ 31 ->
  rand_48 r1 r2 = r1 * 65536 + r2 mod 65536 /\
  0 <= rand_48 r1 r2 < 2 ^ 47.
Proof.
  intros H1 H2. unfold rand_48.
  rewrite (u64_small r1) by (unfold is_u64; lia).
  rewrite (u64_small r2) by (unfold is_u64; lia).
  assert (Hs : Z.shiftl r1 16 = r1 * 65536).
  { rewrite Z.shiftl_mul_pow2 by lia. reflexivity. }
  rewrite (u64_small (Z.shiftl r1 16)) by (unfold is_u64; rewrite Hs; lia).
  change 65535 with (Z.ones 16). rewrite Z.land_ones by lia.
  change (2 ^ 16) with 65536.
  pose proof (Z.mod_pos_bound r2 65536 ltac:(lia)) as B.
  pose proof (Z.add_lor_land (Z.shiftl r1 16) (r2 mod 65536)) as A.
  rewrite land_shiftl_low in A by (change (2 ^ 16) with 65536; lia).
  rewrite Hs in *. lia.
Qed.

Lemma rand_48_has_47_bits_witness : rand_48 1 65537 = 1 * 65536 + 65537 mod 65536.
Proof.
  exact (proj1 (rand_48_has_47_bits 1 65537 ltac:(lia) ltac:(lia))).
Defined.

(** ** The generator *)

Lemma enqueue_readreq_defined c devs w count i :
  0 < num_queues c -> 0 < num_devices c ->
  Z.of_nat (length devs) = num_devices c ->
  Forall (fun d => num_read_offsets d <> 0) devs ->
  exists w' qi r, enqueue_readreq c devs w count i = Ret (w', qi, r).
Proof.
  intros Hq Hd Hl Hn. unfold enqueue_readreq, umod.
  rewrite (proj2 (Z.eqb_neq _ _) (Z.neq_sym _ _ (Z.lt_neq _ _ Hq))).
  rewrite (proj2 (Z.eqb_neq _ _) (Z.neq_sym _ _ (Z.lt_neq _ _ Hd))).
  cbn [bind].
  pose proof (Z.mod_pos_bound (rand_31 (g_rand i)) (num_devices c) Hd) as B.
  destruct (nth_error devs (Z.to_nat (rand_31 (g_rand i) mod num_devices c)))
    as [d|] eqn:E.
  - assert (Hd0 : num_read_offsets d <> 0).
    { rewrite Forall_forall in Hn. apply Hn. eapply nth_error_In. exact E. }
    unfold random_read_offset, umod.
    rewrite (proj2 (Z.eqb_neq _ _) Hd0). cbn [bind]. eauto.
  - apply nth_error_None in E. lia.
Qed.

Lemma add_readreqs_loop_defined c devs ins : forall w count,
  0 < num_queues c -> 0 < num_devices c ->
  Z.of_nat (length devs) = num_devices c ->
  Forall (fun d => num_read_offsets d <> 0) devs ->
  read_reqs_per_sec c <> 0 ->
  how (add_readreqs_loop c devs ins w count) <> GenTrapped.
Proof.
  intros w count Hq Hd Hl Hn Hr. revert w count.
  induction ins as [|i ins IH]; intros w count; cbn [add_readreqs_loop].
  - cbn. discriminate.
  - destruct (negb (g_running (g_before i w))); [cbn; discriminate|].
    destruct (too_many_queued (g_before i w)) as [w1 over].
    destruct over; [cbn; discriminate|].
    destruct (enqueue_readreq_defined c devs w1 count i Hq Hd Hl Hn)
      as (w2 & qi & r & E).
    rewrite E. unfold pace, udiv.
    rewrite (proj2 (Z.eqb_neq _ _) Hr). cbn [bind gen_cons how]. apply IH.
Qed.

(** X8. With at least one queue and one device, a device table as long as
    num_devices, a non-zero num_read_offsets on every device and a non-zero
    request rate, no round of the generator divides by zero or indexes
    outside the device table. *)
Theorem generator_is_defined
    (c : act_cfg) (devs : list device) (ins : list gen_input) (w : world) :
  0 < num_queues c -> 0 < num_devices c ->
  Z.of_nat (length devs) = num_devices c ->
  Forall (fun d => num_read_offsets d <> 0) devs ->
  read_reqs_per_sec c <> 0 ->
  how (run_add_readreqs c devs ins w) <> GenTrapped.
Proof. intros. apply add_readreqs_loop_defined; assumption. Qed.

Lemma generator_is_defined_witness :
  how (run_add_readreqs cfg_default [dev_1g_512] [alone 0 0 9; alone 0 1 1]
         (started blank_world)) <> GenTrapped.
Proof.
  apply (generator_is_defined cfg_default [dev_1g_512] [alone 0 0 9; alone 0 1 1]
           (started blank_world)).
  - cbn. lia.
  - cbn. lia.
  - reflexivity.
  - repeat constructor. cbn. discriminate.
  - cbn. discriminate.
Defined.

(** X9. While no worker completes a request and no other thread clears
    g_running, the generator pushes at most 100000 requests less those
    already counted; every round that returns to the loop head has added one
    to g_read_reqs_queued and pushed one request, and the round that finds
    the counter at 100000 takes it to 100001, clears g_running and ends the
    loop. *)
Theorem generator_overloads_when_workers_stall
    (c : act_cfg) (devs : list device) (ins : list gen_input) (w : world) :
  Forall undisturbed_gen ins -> g_running w = true ->
  0 <= g_read_reqs_queued w <= MAX_READ_REQS_QUEUED ->
  let res := run_add_readreqs c devs ins w in
  let x0 := g_read_reqs_queued w in
  let pushes := Z.of_nat (length (pushed res)) in
  x0 + pushes <= MAX_READ_REQS_QUEUED /\
  how res <> GenStopped /\
  (how res = GenUnfinished ->
   g_read_reqs_queued (final res) = x0 + pushes /\
   length (pushed res) = length ins /\ g_running (final res) = true) /\
  (how res = GenOverload ->
   x0 + pushes = MAX_READ_REQS_QUEUED /\
   g_read_reqs_queued (final res) = MAX_READ_REQS_QUEUED + 1 /\
   g_running (final res) = false).
Proof.
  intros Hu Hr Hx. cbv zeta. unfold run_add_readreqs. generalize 0 as count.
  revert w Hr Hx.
  induction ins as [|i ins IH]; intros w Hr Hx count; cbn [add_readreqs_loop].
  - cbn. repeat split; try discriminate; try lia. assumption.
  - inversion Hu as [|? ? Hi Hu']; subst. rewrite (Hi w), Hr. cbn [negb].
    unfold too_many_queued, cf_atomic32_incr.
    assert (U : u32 (g_read_reqs_queued w + 1) = g_read_reqs_queued w + 1).
    { apply u32_small. unfold is_u32, MAX_READ_REQS_QUEUED in *. lia. }
    rewrite U.
    destruct (g_read_reqs_queued w + 1 >? MAX_READ_REQS_QUEUED) eqn:Ev.
    + apply Z.gtb_lt in Ev. cbn.
      repeat split; intros; try discriminate; try reflexivity;
        unfold MAX_READ_REQS_QUEUED in *; lia.
    + rewrite Z.gtb_ltb in Ev. apply Z.ltb_ge in Ev.
      set (w1 := set_read_reqs_queued w (g_read_reqs_queued w + 1)).
      destruct (enqueue_readreq c devs w1 count i) as [[[w2 qi] r]|] eqn:E.
      2:{ cbn. repeat split; intros; try discriminate; lia. }
      apply enqueue_readreq_inv in E. destruct E as (_ & _ & Ew & _). subst w2.
      destruct (pace c (u64 (count + 1)) i).
      2:{ cbn. repeat split; intros; try discriminate; lia. }
      specialize (IH Hu' (cf_queue_push_req w1 qi r) Hr
                    ltac:(cbn; lia) (u64 (count + 1))).
      cbn [g_read_reqs_queued cf_queue_push_req set_req_queue w1
           set_read_reqs_queued] in IH.
      destruct IH as (I1 & I2 & I3 & I4).
      cbn [pushed final how gen_cons length].
      split; [lia|]. split; [exact I2|]. split.
      * intros Hh. destruct (I3 Hh) as (A & B & C).
        split; [lia|]. split; [congruence|exact C].
      * intros Hh. destruct (I4 Hh) as (A & B & C).
        split; [lia|]. split; [exact B|exact C].
Qed.

Lemma generator_overloads_when_workers_stall_witness :
  how (run_add_readreqs cfg_default [dev_1g_512] [alone 0 0 9; alone 0 1 1]
         (set_read_reqs_queued (started blank_world) 99999)) <> GenStopped.
Proof.
  refine (proj1 (proj2
    (generator_overloads_when_workers_stall cfg_default [dev_1g_512]
       [alone 0 0 9; alone 0 1 1]
       (set_read_reqs_queued (started blank_world) 99999) _ eq_refl _))).
  - repeat constructor.
  - cbn. unfold MAX_READ_REQS_QUEUED. lia.
Defined.

(** ** The threads *)

(** X10. At every point of a run, g_read_reqs_queued is the number of
    requests in the queues, plus those in the hands of workers, plus one if
    the generator has incremented and not yet pushed or has left through the
    overload exit. It stays between 0 and 100001: the 32-bit counter never
    wraps. *)
Theorem reqs_queued_accounts_for_every_request
    (c : act_cfg) (devs : list device) (w : world) (s : sys) :
  0 <= num_queues c ->
  steps c devs (init c w) s ->
  g_read_reqs_queued (shared s)
    = total_queued c (shared s) + total_held (workers s) + unpushed (gpc s) /\
  0 <= g_read_reqs_queued (shared s) <= MAX_READ_REQS_QUEUED + 1.
Proof.
  intros Hq Hs.
  destruct (counter_inv_steps c devs Hq w s Hs) as (Hx & Hb & _).
  split; [exact Hx|].
  pose proof (sum_lengths_nonneg (req_queue (shared s))
                (seq 0 (Z.to_nat (num_queues c)))) as Nq.
  rewrite <- total_queued_sum in Nq.
  pose proof (total_held_nonneg (workers s)) as Nh.
  assert (0 <= unpushed (gpc s)) by (destruct (gpc s) as [| | |[|]]; cbn; lia).
  assert (overloaded_exit (gpc s) <= 1) by (destruct (gpc s) as [| | |[|]]; cbn; lia).
  lia.
Qed.

Lemma reqs_queued_accounts_for_every_request_witness :
  0 <= g_read_reqs_queued (shared after_stop_under_load)
    <= MAX_READ_REQS_QUEUED + 1.
Proof.
  refine (proj2 (reqs_queued_accounts_for_every_request cfg_one_queue [dev_1g_512]
                   blank_world after_stop_under_load _ stop_under_load_reachable)).
  cbn. lia.
Defined.

Lemma step_keeps_running_cleared c devs s s' :
  step c devs s s' -> g_running (shared s) = false -> g_running (shared s') = false.
Proof.
  intros St Hr. inversion St; subst; cbn [shared]; try assumption.
  - apply too_many_queued_inv in H0. destruct H0 as (_ & _ & _ & E).
    rewrite E. destruct over; [reflexivity|assumption].
  - apply enqueue_readreq_inv in H0. destruct H0 as (_ & _ & Ew & _).
    subst w'. exact Hr.
  - unfold cf_queue_pop_req in H0.
    destruct (req_queue (shared s) qi); [discriminate|].
    inversion H0; subst. exact Hr.
  - pose proof (serve_readreq_frame (shared s) r i) as F. cbv zeta in F.
    destruct F as (F & _). rewrite F. exact Hr.
  - apply large_block_read_round_frame in H0. destruct H0 as ([F|F] & _);
      rewrite F; auto.
  - apply large_block_write_round_frame in H0. destruct H0 as ([F|F] & _);
      rewrite F; auto.
  - reflexivity.
Qed.

Lemma stop_reached_under_load :
  steps cfg_one_queue [dev_1g_512] (init cfg_one_queue blank_world)
    stopped_under_load.
Proof.
  next_step ltac:(apply gen_test_true).
  next_step ltac:(eapply gen_incr).
  next_step ltac:(eapply (gen_push _ _ _ (alone 0 0 0))).
  next_step ltac:(apply (wk_test _ _ _ [] 0 [])).
  next_step ltac:(eapply (wk_pop _ _ _ [] 0 [])).
  next_step ltac:(apply gen_test_true).
  next_step ltac:(eapply gen_incr).
  next_step ltac:(eapply (gen_push _ _ _ (alone 0 0 9))).
  eapply steps_first; [apply main_stop; reflexivity|].
  apply steps_refl.
Qed.

Lemma shutdown_after_stop :
  steps cfg_one_queue [dev_1g_512] stopped_under_load after_stop_under_load.
Proof.
  next_step ltac:(eapply (wk_serve _ _ _ [] 0 [] req_0
                            (at_stack 5000 (io_good 1536)))).
  next_step ltac:(apply (wk_test _ _ _ [] 0 [])).
  next_step ltac:(apply gen_test_false).
  next_step ltac:(eapply main_join_gen).
  eapply steps_first;
    [apply main_join_workers; [reflexivity|repeat constructor]|].
  apply steps_refl.
Qed.

(** X11. No thread sets g_running again: once it is cleared, by main, by the
    generator's overload exit or by a large-block loop that lags, it stays
    cleared in every later state of the run. *)
Theorem running_stays_cleared
    (c : act_cfg) (devs : list device) (s s' : sys) :
  steps c devs s s' ->
  g_running (shared s) = false -> g_running (shared s') = false.
Proof.
  intros H. induction H as [|s1 s2 s3 H12 IH H23]; intros Hr; [exact Hr|].
  eapply step_keeps_running_cleared; [exact H23|]. auto.
Qed.

Lemma running_stays_cleared_witness :
  g_running (shared stopped_under_load) = false /\
  g_running (shared after_stop_under_load) = false.
Proof.
  split; [reflexivity|].
  exact (running_stays_cleared cfg_one_queue [dev_1g_512]
           stopped_under_load after_stop_under_load
           shutdown_after_stop eq_refl).
Defined.

(** ** The workers *)

Lemma u32_sub_sub x k : u32 (u32 (x - 1) - k) = u32 (x - (1 + k)).
Proof.
  unfold u32. rewrite Zminus_mod_idemp_l. f_equal. lia.
Qed.

(** X12. A worker that no other thread disturbs, given at least as many
    rounds as its queue holds requests, serves them all: the queue ends
    empty, g_read_reqs_queued has gone down by one per request (as a 32-bit
    counter), the other queues are as they were and g_running is still
    set. *)
Theorem worker_drains_its_queue (qi : Z) (ins : list worker_input) (w : world) :
  Forall undisturbed_worker ins -> g_running w = true ->
  is_u32 (g_read_reqs_queued w) ->
  (length (req_queue w qi) <= length ins)%nat ->
  let w' := run_reads qi ins w in
  req_queue w' qi = [] /\
  g_read_reqs_queued w'
    = u32 (g_read_reqs_queued w - Z.of_nat (length (req_queue w qi))) /\
  (forall j, j <> qi -> req_queue w' j = req_queue w j) /\
  g_running w' = true.
Proof.
  cbv zeta. revert w.
  induction ins as [|i ins IH]; intros w Hu Hr Hx Hl.
  - cbn [run_reads]. destruct (req_queue w qi) eqn:E; [|cbn in Hl; lia].
    cbn [length]. rewrite Z.sub_0_r, (u32_small _ Hx). auto.
  - inversion Hu as [|? ? Hi Hu']; subst. cbn [run_reads].
    rewrite (Hi w), Hr. unfold cf_queue_pop_req.
    destruct (req_queue w qi) as [|r rest] eqn:E.
    + specialize (IH w Hu' Hr Hx). rewrite E in IH. apply IH. cbn. lia.
    + set (w1 := set_req_queue w qi rest).
      pose proof (serve_readreq_frame w1 r i) as F. cbv zeta in F.
      destruct F as (F1 & F2 & F3).
      assert (Eq1 : req_queue (serve_readreq w1 r i) qi = rest).
      { rewrite F3. unfold w1. cbn. rewrite Z.eqb_refl. reflexivity. }
      destruct (IH (serve_readreq w1 r i) Hu' ltac:(rewrite F1; exact Hr)
                  ltac:(rewrite F2; apply u32_range)
                  ltac:(rewrite Eq1; cbn in Hl; lia))
        as (I1 & I2 & I3 & I4).
      rewrite Eq1, F2 in I2. cbn [g_read_reqs_queued w1 set_req_queue] in I2.
      rewrite u32_sub_sub in I2.
      split; [exact I1|]. split.
      * rewrite I2. f_equal. cbn [length]. lia.
      * split; [|exact I4].
        intros j Hj. rewrite (I3 j Hj), F3. unfold w1. cbn.
        rewrite (proj2 (Z.eqb_neq _ _) Hj). reflexivity.
Qed.

Lemma worker_drains_its_queue_witness :
  req_queue (run_reads 0 [at_stack 5000 (io_good 1536); at_stack 5000 io_bad_seek]
               (cf_queue_push_req (set_read_reqs_queued (started blank_world) 1)
                  0 req_4608)) 0 = [].
Proof.
  refine (proj1 (worker_drains_its_queue 0
                   [at_stack 5000 (io_good 1536); at_stack 5000 io_bad_seek]
                   (cf_queue_push_req (set_read_reqs_queued (started blank_world) 1)
                      0 req_4608) _ eq_refl _ _)).
  - repeat constructor.
  - unfold is_u32. cbn. lia.
  - cbn. lia.
Defined.

(** ** The histograms *)

(** X13. read_and_report records a transaction read in three histograms
    or in none: when the read succeeds, the raw-read histogram and the raw
    histogram of the device each gain the same sample and the end-to-end
    histogram gains one; when it fails none of them changes. No other
    histogram is touched either way. *)
Theorem transaction_samples_all_or_nothing
    (w : world) (r : readreq) (buf raw : Z) (io : io_env) :
  let w' := read_and_report w r buf raw io in
  let stop := snd (read_from_device w (p_device r) (offset r) (size r) buf io) in
  let dev_hist := DeviceRawReads (n (p_device r)) in
  (stop = IO_FAILED -> forall h, histogram w' h = histogram w h) /\
  (stop <> IO_FAILED ->
   histogram w' RawReads = safe_delta_ns raw stop :: histogram w RawReads /\
   histogram w' dev_hist = safe_delta_ns raw stop :: histogram w dev_hist /\
   histogram w' Reads = safe_delta_ns (start_time r) stop :: histogram w Reads /\
   forall h, h <> RawReads -> h <> Reads -> h <> dev_hist ->
             histogram w' h = histogram w h).
Proof.
  cbv zeta. unfold read_and_report.
  pose proof (read_from_device_frame w (p_device r) (offset r) (size r) buf io) as F.
  destruct (read_from_device w (p_device r) (offset r) (size r) buf io) as [w1 t].
  cbn [fst snd] in *. destruct F as (_ & _ & _ & Fh).
  split.
  - intros ->. rewrite Z.eqb_refl. cbn [negb]. intros h. rewrite Fh. reflexivity.
  - intros Hne. rewrite (proj2 (Z.eqb_neq _ _) Hne). cbn [negb].
    cbn [histogram histogram_insert_data_point hist_id_eqb]. rewrite Fh.
    rewrite Z.eqb_refl. repeat split.
    intros h H1 H2 H3.
    destruct h as [| | | |x]; cbn [hist_id_eqb]; try congruence.
    destruct (x =? n (p_device r)) eqn:E; [|reflexivity].
    apply Z.eqb_eq in E. subst x. congruence.
Qed.

Lemma transaction_samples_all_or_nothing_witness :
  histogram (read_and_report blank_world req_4608 8192 100 (io_good 1536)) RawReads
  = [800].
Proof.
  exact (proj1 (proj2 (transaction_samples_all_or_nothing blank_world req_4608
                         8192 100 (io_good 1536)) ltac:(discriminate))).
Defined.

(** X14. The end-to-end sample of a request is never below its raw sample:
    when the request was enqueued no later than the worker started the read,
    the value read_and_report puts into the end-to-end histogram is at least
    the value it puts into the raw histograms. *)
Theorem end_to_end_latency_at_least_raw
    (w : world) (r : readreq) (buf raw : Z) (io : io_env) :
  is_u64 raw -> is_u64 (start_time r) -> is_u64 (io_stop_ns io) ->
  start_time r <= raw ->
  let w' := read_and_report w r buf raw io in
  snd (read_from_device w (p_device r) (offset r) (size r) buf io) <> IO_FAILED ->
  exists e2e rawv,
    histogram w' Reads = e2e :: histogram w Reads /\
    histogram w' RawReads = rawv :: histogram w RawReads /\
    rawv <= e2e.
Proof.
  intros Hraw Hst Hstop Hle w' Hok. subst w'. unfold read_and_report.
  pose proof (read_from_device_frame w (p_device r) (offset r) (size r) buf io) as F.
  assert (S : snd (read_from_device w (p_device r) (offset r) (size r) buf io)
              = IO_FAILED \/
              snd (read_from_device w (p_device r) (offset r) (size r) buf io)
              = io_stop_ns io).
  { open_engine read_from_device w (p_device r) io; cbn; auto. }
  destruct (read_from_device w (p_device r) (offset r) (size r) buf io) as [w1 t].
  cbn [fst snd] in *. destruct F as (_ & _ & _ & Fh).
  destruct S as [S|S]; [contradiction|]. subst t.
  rewrite (proj2 (Z.eqb_neq _ _) Hok). cbn [negb].
  cbn [histogram histogram_insert_data_point hist_id_eqb]. rewrite Fh.
  do 2 eexists. split; [reflexivity|]. split; [reflexivity|].
  rewrite !safe_delta_ns_max by assumption. lia.
Qed.

Lemma end_to_end_latency_at_least_raw_witness :
  exists e2e rawv,
    histogram (read_and_report blank_world req_4608 8192 100 (io_good 1536)) Reads
      = e2e :: histogram blank_world Reads /\
    histogram (read_and_report blank_world req_4608 8192 100 (io_good 1536)) RawReads
      = rawv :: histogram blank_world RawReads /\
    rawv <= e2e.
Proof.
  apply (end_to_end_latency_at_least_raw blank_world req_4608 8192 100
           (io_good 1536)).
  - unfold is_u64. lia.
  - unfold is_u64. cbn. lia.
  - unfold is_u64. cbn. lia.
  - cbn. lia.
  - discriminate.
Defined.

(** ** The clock *)

Lemma clock_values ts :
  valid_timespec ts ->
  cf_getns ts = tv_sec ts * 1000000000 + tv_nsec ts /\
  cf_getus ts = tv_sec ts * 1000000 + tv_nsec ts / 1000 /\
  cf_getms ts = tv_sec ts * 1000 + tv_nsec ts / 1000000.
Proof.
  intros [Hs Hn]. unfold cf_getns, cf_getus, cf_getms.
  rewrite (u64_small (tv_nsec ts)) by (unfold is_u64; lia).
  rewrite (u64_small (tv_sec ts)) by (unfold is_u64; lia).
  pose proof (Z.div_pos (tv_nsec ts) 1000 ltac:(lia) ltac:(lia)).
  pose proof (Z.div_pos (tv_nsec ts) 1000000 ltac:(lia) ltac:(lia)).
  pose proof (Z.div_le_upper_bound (tv_nsec ts) 1000 1000000 ltac:(lia) ltac:(lia)).
  pose proof (Z.div_le_upper_bound (tv_nsec ts) 1000000 1000 ltac:(lia) ltac:(lia)).
  rewrite !u64_small by (unfold is_u64; try rewrite !u64_small by (unfold is_u64; lia); lia).
  repeat split; lia.
Qed.

(** X15. For a time the kernel can report, the three clock functions are
    one time in three units: cf_getns is seconds * 10^9 + nanoseconds,
    cf_getus is cf_getns / 1000 and cf_getms is cf_getns / 1000000, rounded
    down, with no 64-bit wrap-around. *)
Theorem clock_units_agree (ts : timespec) :
  valid_timespec ts ->
  cf_getns ts = tv_sec ts * 1000000000 + tv_nsec ts /\
  cf_getus ts = cf_getns ts / 1000 /\
  cf_getms ts = cf_getns ts / 1000000 /\
  cf_getms ts = cf_getus ts / 1000.
Proof.
  intros Hv. destruct (clock_values ts Hv) as (En & Eu & Em).
  destruct Hv as [Hs Hn].
  assert (A : (tv_sec ts * 1000000000 + tv_nsec ts) / 1000
              = tv_sec ts * 1000000 + tv_nsec ts / 1000).
  { replace (tv_sec ts * 1000000000) with (tv_sec ts * 1000000 * 1000) by lia.
    rewrite Z.div_add_l by lia. reflexivity. }
  assert (B : (tv_sec ts * 1000000000 + tv_nsec ts) / 1000000
              = tv_sec ts * 1000 + tv_nsec ts / 1000000).
  { replace (tv_sec ts * 1000000000) with (tv_sec ts * 1000 * 1000000) by lia.
    rewrite Z.div_add_l by lia. reflexivity. }
  rewrite En, Eu, Em, A, B. repeat split.
  replace (tv_sec ts * 1000000) with (tv_sec ts * 1000 * 1000) by lia.
  rewrite Z.div_add_l by lia. rewrite Z.div_div by lia. reflexivity.
Qed.

Lemma clock_units_agree_witness :
  cf_getus {| tv_sec := 12; tv_nsec := 345678901 |}
  = cf_getns {| tv_sec := 12; tv_nsec := 345678901 |} / 1000.
Proof.
  refine (proj1 (proj2 (clock_units_agree {| tv_sec := 12; tv_nsec := 345678901 |} _))).
  unfold valid_timespec. cbn. lia.
Defined.

(** X16. The clock functions keep the order of time: if one valid time is
    not later than another, seconds first and nanoseconds next, none of
    cf_getns, cf_getus and cf_getms is larger on the first; and cf_getns
    tells two different times apart. *)
Theorem clock_keeps_order (a b : timespec) :
  valid_timespec a -> valid_timespec b -> timespec_le a b ->
  cf_getns a <= cf_getns b /\ cf_getus a <= cf_getus b /\
  cf_getms a <= cf_getms b /\
  (cf_getns a = cf_getns b -> tv_sec a = tv_sec b /\ tv_nsec a = tv_nsec b).
Proof.
  intros Ha Hb Hle.
  destruct (clock_values a Ha) as (An & Au & Am).
  destruct (clock_values b Hb) as (Bn & Bu & Bm).
  destruct Ha as [Has Han]. destruct Hb as [Hbs Hbn].
  rewrite An, Au, Am, Bn, Bu, Bm.
  pose proof (Z.div_pos (tv_nsec a) 1000 ltac:(lia) ltac:(lia)).
  pose proof (Z.div_pos (tv_nsec b) 1000 ltac:(lia) ltac:(lia)).
  pose proof (Z.div_pos (tv_nsec a) 1000000 ltac:(lia) ltac:(lia)).
  pose proof (Z.div_pos (tv_nsec b) 1000000 ltac:(lia) ltac:(lia)).
  pose proof (Z.div_lt_upper_bound (tv_nsec a) 1000 1000000 ltac:(lia) ltac:(lia)).
  pose proof (Z.div_lt_upper_bound (tv_nsec a) 1000000 1000 ltac:(lia) ltac:(lia)).
  destruct Hle as [Hlt|[He Hl]].
  - repeat split; lia.
  - pose proof (Z.div_le_mono (tv_nsec a) (tv_nsec b) 1000 ltac:(lia) Hl).
    pose proof (Z.div_le_mono (tv_nsec a) (tv_nsec b) 1000000 ltac:(lia) Hl).
    repeat split; lia.
Qed.

Lemma clock_keeps_order_witness :
  cf_getns {| tv_sec := 12; tv_nsec := 999999999 |}
  <= cf_getns {| tv_sec := 13; tv_nsec := 0 |}.
Proof.
  refine (proj1 (clock_keeps_order {| tv_sec := 12; tv_nsec := 999999999 |}
                   {| tv_sec := 13; tv_nsec := 0 |} _ _ _)).
  - unfold valid_timespec. cbn. lia.
  - unfold valid_timespec. cbn. lia.
  - left. cbn. lia.
Defined.

(** ** Alignment, once more *)

(** X17. align_4096 rounds an address up to the next multiple of 4096: the
    result is a multiple of 4096, it is the least one that is not below the
    address, and an aligned address is left as it is. In the last 4095 bytes
    of the 64-bit address space the sum wraps around and the result is 0. *)
Theorem align_4096_rounds_up (sb a : Z) :
  0 <= sb < 2 ^ 64 ->
  align_4096 sb mod 4096 = 0 /\
  (sb + 4095 < 2 ^ 64 ->
   sb <= align_4096 sb /\
   (a mod 4096 = 0 -> sb <= a -> align_4096 sb <= a) /\
   (sb mod 4096 = 0 -> align_4096 sb = sb)) /\
  (2 ^ 64 <= sb + 4095 -> align_4096 sb = 0).
Proof.
  intros Hs. split; [apply align_4096_aligned|].
  rewrite align_4096_eq. split.
  - intros Hf. rewrite u64_small by (unfold is_u64; lia).
    pose proof (Z.div_mod (sb + 4095) 4096 ltac:(lia)) as D.
    pose proof (Z.mod_pos_bound (sb + 4095) 4096 ltac:(lia)) as B.
    split; [lia|]. split.
    + intros Ha Hle.
      pose proof (Z.div_mod a 4096 ltac:(lia)) as Da. rewrite Ha in Da.
      assert ((sb + 4095) / 4096 <= a / 4096); [|lia].
      apply Z.div_le_lower_bound; [lia|].
      assert (a / 4096 * 4096 + 4095 >= sb + 4095) by lia.
      destruct (Z_lt_le_dec (a / 4096) ((sb + 4095) / 4096)); lia.
    + intros Hm.
      pose proof (Z.div_mod sb 4096 ltac:(lia)) as Ds. rewrite Hm in Ds.
      rewrite (div_by_bounds (sb + 4095) 4096 (sb / 4096)) by lia. lia.
  - intros Hw. unfold u64.
    replace (sb + 4095) with (sb + 4095 - 2 ^ 64 + 1 * 2 ^ 64) by lia.
    rewrite Z.mod_add by lia. rewrite Z.mod_small by lia.
    rewrite Z.div_small by lia. reflexivity.
Qed.

Lemma align_4096_rounds_up_witness :
  align_4096 5000 mod 4096 = 0 /\ 5000 <= align_4096 5000 /\
  align_4096 5000 <= 8192.
Proof.
  destruct (align_4096_rounds_up 5000 8192 ltac:(lia)) as (Hm & Hr & _).
  destruct (Hr ltac:(lia)) as (Hle & Hleast & _).
  exact (conj Hm (conj Hle (Hleast eq_refl ltac:(lia)))).
Defined.

(** ** I/O schedulers *)

Section SchedulerProperties.

Import String Ascii.

Lemma string_length_append (a b : string) :
  String.length (a ++ b) = (String.length a + String.length b)%nat.
Proof. induction a as [|ch a IH]; cbn; [reflexivity|]. rewrite IH. reflexivity. Qed.

Lemma strrchr_slash_none (s : string) :
  strrchr_slash s = None <-> slash_free s = true.
Proof.
  induction s as [|ch s IH]; cbn; [tauto|].
  destruct (strrchr_slash s) as [t|].
  - split; [discriminate|]. intros H. apply andb_true_iff in H.
    destruct H as [_ H]. apply IH in H. discriminate.
  - destruct (Ascii.eqb ch "/"); cbn.
    + split; discriminate.
    + split; [|reflexivity]. intros _. apply IH. reflexivity.
Qed.

Lemma strrchr_slash_some (s t : string) :
  strrchr_slash s = Some t ->
  exists dir rest, t = String "/" rest /\ s = (dir ++ t)%string /\
                   slash_free rest = true.
Proof.
  revert t. induction s as [|ch s IH]; intros t; cbn; [discriminate|].
  destruct (strrchr_slash s) as [t'|] eqn:E.
  - intros H. inversion H; subst t'.
    destruct (IH t eq_refl) as (dir & rest & E1 & E2 & E3).
    exists (String ch dir), rest. cbn. rewrite <- E2. auto.
  - destruct (Ascii.eqb ch "/") eqn:Ec; [|discriminate].
    intros H. inversion H; subst t. apply Ascii.eqb_eq in Ec. subst ch.
    exists EmptyString, s. cbn. repeat split. apply strrchr_slash_none. exact E.
Qed.

(** X18. The tag set_schedulers takes from a device name is the name's last
    path component: it has no slash; a name without a slash is its own tag;
    and a name with a slash is a directory part, a slash and the tag. *)
Theorem device_tag_is_last_component (device_name : string) :
  slash_free (device_tag device_name) = true /\
  (slash_free device_name = true -> device_tag device_name = device_name) /\
  (slash_free device_name = false ->
   exists dir, device_name = (dir ++ "/" ++ device_tag device_name)%string).
Proof.
  unfold device_tag.
  destruct (strrchr_slash device_name) as [t|] eqn:E.
  - destruct (strrchr_slash_some _ _ E) as (dir & rest & E1 & E2 & E3). subst t.
    split; [exact E3|]. split.
    + intros H. apply strrchr_slash_none in H. congruence.
    + intros _. exists dir. exact E2.
  - pose proof (proj1 (strrchr_slash_none _) E) as H.
    split; [exact H|]. split; [reflexivity|]. congruence.
Qed.

Lemma device_tag_is_last_component_witness :
  device_tag "/dev/vg1-ns/5" = "/dev/vg1-ns/5"%string \/
  exists dir, "/dev/vg1-ns/5"%string
              = (dir ++ "/" ++ device_tag "/dev/vg1-ns/5")%string.
Proof.
  right.
  exact (proj2 (proj2 (device_tag_is_last_component "/dev/vg1-ns/5")) eq_refl).
Defined.

Lemma scheduler_file_name_fits (tag : string) :
  (String.length tag <= 100)%nat ->
  scheduler_file_name tag
  = Ret (("/sys/block/" ++ tag) ++ "/queue/scheduler")%string.
Proof.
  intros H. unfold scheduler_file_name. cbv zeta.
  rewrite !string_length_append.
  change (String.length "/sys/block/") with 11%nat.
  change (String.length "/queue/scheduler") with 16%nat.
  rewrite (proj2 (Z.leb_gt _ _)) by lia.
  rewrite (proj2 (Z.leb_gt _ _)) by lia.
  reflexivity.
Qed.

Lemma scheduler_file_name_overflows (tag : string) :
  (100 < String.length tag)%nat -> scheduler_file_name tag = Trap.
Proof.
  intros H. unfold scheduler_file_name. cbv zeta.
  rewrite !string_length_append.
  change (String.length "/sys/block/") with 11%nat.
  change (String.length "/queue/scheduler") with 16%nat.
  destruct (128 <=? Z.of_nat (11 + String.length tag)); [reflexivity|].
  rewrite (proj2 (Z.leb_le _ _)) by lia. reflexivity.
Qed.

(** X19. set_schedulers is best effort: when every device tag has at most
    100 characters it goes through all devices in order, trying to open the
    scheduler file of each one whether or not the earlier opens and writes
    succeeded. A tag of more than 100 characters does not fit the 128-byte
    array the file name is built in. *)
Theorem set_schedulers_visits_every_device
    (mode : string) (fopen_ok fwrite_ok : string -> bool) (names : list string) :
  (Forall (fun nm => (String.length (device_tag nm) <= 100)%nat) names ->
   exists evs, set_schedulers mode fopen_ok fwrite_ok names = Ret evs /\
               opened_files evs = map scheduler_path names) /\
  (Exists (fun nm => (100 < String.length (device_tag nm))%nat) names ->
   set_schedulers mode fopen_ok fwrite_ok names = Trap).
Proof.
  split.
  - induction 1 as [|nm names Hn Hf IH]; cbn [set_schedulers].
    + exists []. split; reflexivity.
    + destruct IH as (evs & E & O). unfold opened_files in *.
      rewrite (scheduler_file_name_fits _ Hn). cbn [bind]. rewrite E.
      fold (scheduler_path nm).
      destruct (fopen_ok (scheduler_path nm)); cbn [negb bind].
      * eexists. split; [reflexivity|].
        destruct (fwrite_ok (scheduler_path nm));
          cbn [flat_map app map]; rewrite O; reflexivity.
      * eexists. split; [reflexivity|].
        cbn [flat_map app map]. rewrite O. reflexivity.
  - induction 1 as [nm names Hn|nm names He IH]; cbn [set_schedulers].
    + rewrite (scheduler_file_name_overflows _ Hn). reflexivity.
    + destruct (Compare_dec.le_lt_dec (String.length (device_tag nm)) 100) as [Hd|Hd].
      * rewrite (scheduler_file_name_fits _ Hd). cbn [bind]. rewrite IH.
        destruct (negb (fopen_ok _)); reflexivity.
      * rewrite (scheduler_file_name_overflows _ Hd). reflexivity.
Qed.

Lemma set_schedulers_visits_every_device_witness :
  exists evs,
    set_schedulers "noop" (fun _ => false) (fun _ => true)
      ["/dev/vg1-ns/5"; "/dev/vg1-ns/6"]%string = Ret evs /\
    opened_files evs = map scheduler_path ["/dev/vg1-ns/5"; "/dev/vg1-ns/6"]%string.
Proof.
  apply (proj1 (set_schedulers_visits_every_device "noop" (fun _ => false)
                  (fun _ => true) ["/dev/vg1-ns/5"; "/dev/vg1-ns/6"]%string)).
  repeat constructor; cbn; lia.
Defined.

End SchedulerProperties.

(** ** The large-block loops *)

Lemma large_block_loops_idle c d buf ins : forall w,
  g_running w = false -> Forall undisturbed_lb ins ->
  large_block_reads_loop c d buf ins w = Ret w /\
  large_block_writes_loop c d buf ins w = Ret w.
Proof.
  induction ins as [|[before i] ins IH]; intros w Hr Hu; [split; reflexivity|].
  inversion Hu as [|? ? Hi Hu']; subst.
  cbn [large_block_reads_loop large_block_writes_loop].
  pose proof (Hi w) as Hw. cbn [fst] in Hw. rewrite Hw, Hr. split; reflexivity.
Qed.

(** X20. The large-block read loop gives up when it lags: the round whose
    sleep_us is below -10000000 (ten seconds behind) prints the two error
    lines and clears g_running, and the loop, left alone, issues no further
    operation; a round that is ten seconds behind or less leaves g_running
    as the operation left it. When the buffer cannot be allocated the thread
    returns after its error message, doing no I/O and leaving g_running
    set. *)
Theorem large_block_loop_gives_up_on_lag
    (c : act_cfg) (d : device) (buf : Z) (w w1 : world) (i : lb_input)
    (rest : list ((world -> world) * lb_input)) :
  g_running w = true ->
  read_and_report_large_block c w d buf (lb_r1 i) (lb_r2 i) (lb_start i) (lb_io i)
    = Ret w1 ->
  Forall undisturbed_lb rest ->
  (lb_sleep_us i < - MAX_SLEEP_LAG_USEC ->
   let w2 := set_running (emit (emit w1 (EvPrint ErrLargeBlockReadsLag))
                            (EvPrint ErrCantKeepUp)) false in
   large_block_reads_loop c d buf ((fun x => x, i) :: rest) w = Ret w2) /\
  (- MAX_SLEEP_LAG_USEC <= lb_sleep_us i ->
   large_block_read_round c w d buf i = Ret w1) /\
  (forall pv status, status <> 0 ->
   run_large_block_reads c d status pv ((fun x => x, i) :: rest) w
   = Ret (emit w (EvPrint ErrLargeBlockReadValloc))).
Proof.
  intros Hr Hop Hu. split; [|split].
  - intros Hlag w2. cbn [large_block_reads_loop]. rewrite Hr.
    unfold large_block_read_round. rewrite Hop. cbn [bind].
    unfold large_block_lag.
    assert (E1 : (lb_sleep_us i >? 0) = false).
    { rewrite Z.gtb_ltb. apply Z.ltb_ge. unfold MAX_SLEEP_LAG_USEC in Hlag. lia. }
    rewrite E1, (proj2 (Z.ltb_lt _ _) Hlag).
    apply (large_block_loops_idle c d buf rest w2 eq_refl Hu).
  - intros Hok. unfold large_block_read_round. rewrite Hop. cbn [bind].
    unfold large_block_lag.
    destruct (lb_sleep_us i >? 0); [reflexivity|].
    rewrite (proj2 (Z.ltb_ge _ _) Hok). reflexivity.
  - intros pv status Hs. unfold run_large_block_reads, cf_valloc.
    rewrite (proj2 (Z.eqb_neq _ _) Hs). reflexivity.
Qed.

Lemma large_block_loop_gives_up_on_lag_witness :
  large_block_read_round cfg_default blank_world_running dev_1g_512 8192
    {| lb_r1 := 0; lb_r2 := 0; lb_start := 0; lb_io := io_good 131072;
       lb_sleep_us := -10000000 |}
  = Ret (after_large_read).
Proof.
  refine (proj1 (proj2
    (large_block_loop_gives_up_on_lag cfg_default dev_1g_512 8192
       blank_world_running after_large_read
       {| lb_r1 := 0; lb_r2 := 0; lb_start := 0; lb_io := io_good 131072;
          lb_sleep_us := -10000000 |} [] eq_refl eq_refl (Forall_nil _))) _).
  cbn. lia.
Defined.
